(** * The chart-data pipeline of gold-live-calculator

    A shallow embedding of [server/app.js]: the point and series
    normalisers, the time-window filter, the downsampler, the memoised
    cache loader and the [/api/chart-data] handler, followed by the
    properties the specification states about them.

    The source file holds two variants of the server.  The first
    (lines 1-194) serves every timeframe from the cached dataset; it is
    embedded at top level.  The second (lines 195-417) adds an upstream
    real-time feed; its normalisers and downsampler are the same text,
    and the parts that differ are embedded in [Module RealTimeVariant]. *)

From Stdlib Require Import String Ascii Bool Arith ZArith QArith Qround List.
From Stdlib Require Import DecimalString.
From Stdlib Require Import Lia Lqa Permutation Sorted.
Import ListNotations.

Set Warnings "-register-all".

(** ** The JavaScript runtime the program relies on *)

Module JS.

(** *** Numbers

    A JavaScript number is [NaN], one of the two infinities, or a finite
    value.  Finite values are modelled as exact rationals: arithmetic is
    exact (rounding to 53 bits and overflow are not modelled) and the two
    zeros are identified. *)

Inductive num : Type :=
| NaN
| PInf
| NInf
| Fin (q : Q).

(** [Number.isFinite] on a number. *)
Definition isFinite (n : num) : bool :=
  match n with Fin _ => true | _ => false end.

(** [Number.isNaN] on a number. *)
Definition isNaN (n : num) : bool :=
  match n with NaN => true | _ => false end.

(** The order of the extended line; [None] when an operand is [NaN]. *)
Definition compare (a b : num) : option comparison :=
  match a, b with
  | NaN, _ | _, NaN => None
  | Fin x, Fin y => Some (x ?= y)%Q
  | NInf, NInf | PInf, PInf => Some Eq
  | NInf, _ | _, PInf => Some Lt
  | PInf, _ | _, NInf => Some Gt
  end.

(** [a < b], [a > b], [a <= b], [a >= b] and [a === b] on numbers. *)
Definition lt (a b : num) : bool :=
  match compare a b with Some Lt => true | _ => false end.

Definition gt (a b : num) : bool := lt b a.

Definition le (a b : num) : bool :=
  match compare a b with Some Lt | Some Eq => true | _ => false end.

Definition ge (a b : num) : bool := le b a.

Definition strict_eq (a b : num) : bool :=
  match compare a b with Some Eq => true | _ => false end.

(** [a - b]. *)
Definition sub (a b : num) : num :=
  match a, b with
  | NaN, _ | _, NaN => NaN
  | Fin x, Fin y => Fin (x - y)
  | PInf, PInf | NInf, NInf => NaN
  | PInf, _ | _, NInf => PInf
  | NInf, _ | _, PInf => NInf
  end.

(** [a * b]; an infinity times zero is [NaN]. *)
Definition mul (a b : num) : num :=
  let inf_times (positive : bool) (x : Q) : num :=
    match (x ?= 0)%Q with
    | Eq => NaN
    | Gt => if positive then PInf else NInf
    | Lt => if positive then NInf else PInf
    end in
  match a, b with
  | NaN, _ | _, NaN => NaN
  | Fin x, Fin y => Fin (x * y)
  | PInf, PInf | NInf, NInf => PInf
  | PInf, NInf | NInf, PInf => NInf
  | PInf, Fin y => inf_times true y
  | NInf, Fin y => inf_times false y
  | Fin x, PInf => inf_times true x
  | Fin x, NInf => inf_times false x
  end.

(** [Math.round]: the nearest integer, ties towards plus infinity. *)
Definition Math_round (a : num) : num :=
  match a with
  | Fin x => Fin (inject_Z (Qfloor (x + (1 # 2))))
  | _ => a
  end.

(** An integer as a number. *)
Definition of_Z (z : Z) : num := Fin (inject_Z z).

(** *** Strings

    A string is a sequence of code units; the model covers the code
    units below 256, which is where every character the program tests
    for lives. *)

Definition code (c : ascii) : Z := Z.of_nat (nat_of_ascii c).

(** White space and line terminators (TAB, LF, VT, FF, CR, SP, NBSP). *)
Definition is_white (c : ascii) : bool :=
  let n := code c in
  ((9 <=? n) && (n <=? 13) || (n =? 32) || (n =? 160))%Z.

Fixpoint trimStart (s : string) : string :=
  match s with
  | EmptyString => EmptyString
  | String c s' => if is_white c then trimStart s' else s
  end.

Fixpoint trimEnd (s : string) : string :=
  match s with
  | EmptyString => EmptyString
  | String c s' =>
      match trimEnd s' with
      | EmptyString => if is_white c then EmptyString else String c EmptyString
      | r => String c r
      end
  end.

(** [String.prototype.trim]. *)
Definition trim (s : string) : string := trimEnd (trimStart s).

(** [String.prototype.toLowerCase] on code units below 256. *)
Definition lower (c : ascii) : ascii :=
  let n := code c in
  if ((65 <=? n) && (n <=? 90) || (192 <=? n) && (n <=? 222) && negb (n =? 215))%Z
  then ascii_of_nat (nat_of_ascii c + 32)
  else c.

Fixpoint toLowerCase (s : string) : string :=
  match s with
  | EmptyString => EmptyString
  | String c s' => String (lower c) (toLowerCase s')
  end.

(** *** [Number(string)]

    The string is trimmed; the empty string is [0]; a signed decimal
    literal, [Infinity], or an unsigned hexadecimal, octal or binary
    literal gives its value; anything else is [NaN]. *)

Definition digit_of (c : ascii) : option Z :=
  let n := code c in
  if ((48 <=? n) && (n <=? 57))%Z then Some (n - 48)%Z
  else if ((97 <=? n) && (n <=? 102))%Z then Some (n - 87)%Z
  else if ((65 <=? n) && (n <=? 70))%Z then Some (n - 55)%Z
  else None.

Definition digit_in (base : Z) (c : ascii) : option Z :=
  match digit_of c with
  | Some d => if (d <? base)%Z then Some d else None
  | None => None
  end.

(** Reads the longest run of digits: the accumulated value, how many
    digits were read, and what follows them. *)
Fixpoint read_digits (base : Z) (l : list ascii) (acc : Z) (count : nat)
  : Z * nat * list ascii :=
  match l with
  | c :: l' =>
      match digit_in base c with
      | Some d => read_digits base l' (acc * base + d)%Z (S count)
      | None => (acc, count, l)
      end
  | [] => (acc, count, [])
  end.

Definition radix_literal (base : Z) (l : list ascii) : num :=
  match read_digits base l 0%Z 0%nat with
  | (v, S _, []) => of_Z v
  | _ => NaN
  end.

(** [m * 10 ^ e] as a reduced fraction. *)
Definition scale10 (m e : Z) : Q :=
  if (0 <=? e)%Z then inject_Z (m * 10 ^ e)
  else Qred (Qmake m (Z.to_pos (10 ^ (- e)))).

Definition decimal_literal (l : list ascii) : option Q :=
  let '(ip, ni, r1) := read_digits 10 l 0%Z 0%nat in
  let '(m, nf, r2) :=
    match r1 with
    | "."%char :: r => read_digits 10 r ip 0%nat
    | _ => (ip, 0%nat, r1)
    end in
  if (ni + nf =? 0)%nat then None
  else
    match r2 with
    | [] => Some (scale10 m (- Z.of_nat nf))
    | e :: r3 =>
        if (Ascii.eqb e "e" || Ascii.eqb e "E")%bool then
          let '(sgn, r4) :=
            match r3 with
            | "+"%char :: r => (1%Z, r)
            | "-"%char :: r => ((-1)%Z, r)
            | _ => (1%Z, r3)
            end in
          match read_digits 10 r4 0%Z 0%nat with
          | (ev, S _, []) => Some (scale10 m (sgn * ev - Z.of_nat nf))
          | _ => None
          end
        else None
    end.

Definition unsigned_literal (l : list ascii) : num :=
  if String.eqb (string_of_list_ascii l) "Infinity" then PInf
  else match decimal_literal l with Some q => Fin q | None => NaN end.

Definition negate (a : num) : num :=
  match a with
  | NaN => NaN
  | PInf => NInf
  | NInf => PInf
  | Fin x => Fin (- x)
  end.

Definition Number_of_string (s : string) : num :=
  match list_ascii_of_string (trim s) with
  | [] => of_Z 0
  | "0"%char :: "x"%char :: r | "0"%char :: "X"%char :: r => radix_literal 16 r
  | "0"%char :: "o"%char :: r | "0"%char :: "O"%char :: r => radix_literal 8 r
  | "0"%char :: "b"%char :: r | "0"%char :: "B"%char :: r => radix_literal 2 r
  | "+"%char :: r => unsigned_literal r
  | "-"%char :: r => negate (unsigned_literal r)
  | l => unsigned_literal l
  end.

(** *** Values

    What [JSON.parse] can produce, together with [undefined] and [Date]
    objects, which the normalisers test for.  A [Date] carries its time
    value: an integral number of milliseconds, or none for an invalid
    date.  An object is the list of its own properties. *)

Inductive value : Type :=
| VUndefined
| VNull
| VBool (b : bool)
| VNum (n : num)
| VStr (s : string)
| VDate (t : option Z)
| VArr (items : list value)
| VObj (props : list (string * value)).

(** A time value as a number: [NaN] for an invalid date. *)
Definition time_value (t : option Z) : num :=
  match t with Some z => of_Z z | None => NaN end.

(** [ToBoolean]. *)
Definition truthy (v : value) : bool :=
  match v with
  | VUndefined | VNull => false
  | VBool b => b
  | VNum n => negb (isNaN n || strict_eq n (of_Z 0))
  | VStr s => negb (String.eqb s "")
  | VDate _ | VArr _ | VObj _ => true
  end.

(** [a ?? b]. *)
Definition nullish (a b : value) : value :=
  match a with VUndefined | VNull => b | _ => a end.

Fixpoint lookup (props : list (string * value)) (key : string) : value :=
  match props with
  | [] => VUndefined
  | (k, v) :: rest => if String.eqb k key then v else lookup rest key
  end.

(** [o.key] for the property names the program reads; none of them is
    defined on [Object.prototype] or [Date.prototype]. *)
Definition get (o : value) (key : string) : value :=
  match o with
  | VObj props => lookup props key
  | _ => VUndefined
  end.

(** *** [Array.prototype.sort]

    The sort is stable.  [insert x l] places [x] in front of the sorted
    rest unless the comparator says it belongs after an element ([cmp x
    y > 0]); a [NaN] from the comparator counts as zero. *)

Section Sort.
Variable A : Type.
Variable cmp : A -> A -> num.

Fixpoint insert (x : A) (l : list A) : list A :=
  match l with
  | [] => [x]
  | y :: l' => if gt (cmp x y) (of_Z 0) then y :: insert x l' else x :: l
  end.

Fixpoint sort (l : list A) : list A :=
  match l with
  | [] => []
  | x :: l' => insert x (sort l')
  end.

End Sort.

Arguments insert {A} cmp x l.
Arguments sort {A} cmp l.

End JS.
Import JS.
Open Scope nat_scope.

(** ** The normalisers (lines 49-127) *)

(** A sample as the normalisers build it: [{ timestamp, price_usd }]. *)
Record Sample : Type := { timestamp : num; price_usd : num }.

(** The [typeof value === 'number'] branch of [normalizeTimestamp]. *)
Definition normalizeTimestamp_number (value : num) : num :=
  if negb (isFinite value) then NaN
  else if gt value (Fin 1e14%Q) then Math_round value
  else if gt value (Fin 1e12%Q) then Math_round value
  else if gt value (Fin 1e10%Q) then Math_round value
  else if gt value (Fin 1e9%Q) then Math_round (mul value (Fin 1000%Q))
  else Math_round (mul value (Fin 1000%Q)).

Section Normalisers.

(** [Date.parse] is left to the host beyond the ISO format: it is a
    parameter, giving the time value of a string or none for [NaN]. *)
Variable Date_parse : string -> option Z.

(** The call on a string recurses once, into the number branch. *)
Definition normalizeTimestamp (value : value) : num :=
  match value with
  | VUndefined | VNull => NaN
  | VDate t => time_value t
  | VNum n => normalizeTimestamp_number n
  | VStr s =>
      let parsed := Number_of_string s in
      if isFinite parsed then normalizeTimestamp_number parsed
      else
        let dateParsed := time_value (Date_parse s) in
        if isNaN dateParsed then NaN else dateParsed
  | _ => NaN
  end.

Definition normalizePrice (value : value) : num :=
  match value with
  | VUndefined | VNull => NaN
  | VNum n => if isFinite n then n else NaN
  | VStr s =>
      let parsed := Number_of_string s in
      if isFinite parsed then parsed else NaN
  | _ => NaN
  end.

Definition isArray (v : value) : bool :=
  match v with VArr _ => true | _ => false end.

Local Notation "a ?? b" := (nullish a b) (at level 45, left associativity).

(** The two reads of a keyed record (lines 92-97); [point[0]] and
    [point[1]] are its properties named 0 and 1. *)
Definition aliased_timestamp (point : value) : num :=
  normalizeTimestamp
    (get point "timestamp" ?? get point "time" ?? get point "t"
       ?? get point "date" ?? get point "0").

Definition aliased_price (point : value) : num :=
  normalizePrice
    (get point "price_usd" ?? get point "price" ?? get point "value"
       ?? get point "usd" ?? get point "p" ?? get point "close"
       ?? get point "1").

(** The body of [normalizePoint], with the recursive call as [self]. *)
Definition normalizePoint_body (self : value -> option Sample) (point : value)
  : option Sample :=
  if negb (truthy point) then None
  else
    match point with
    | VArr items =>
        let tsRaw := nth 0 items VUndefined in
        let priceRaw := nth 1 items VUndefined in
        let timestamp := normalizeTimestamp tsRaw in
        let price := normalizePrice priceRaw in
        if isFinite timestamp && isFinite price
        then Some {| timestamp := timestamp; price_usd := price |}
        else None
    | VObj _ | VDate _ =>
        let timestamp := aliased_timestamp point in
        let price := aliased_price point in
        if isFinite timestamp && isFinite price
        then Some {| timestamp := timestamp; price_usd := price |}
        else if isFinite timestamp && isArray (get point "value")
        then self (get point "value")
        else None
    | _ => None
    end.

(** The recursive call is made on an array only, and the array branch
    does not recurse: two unfoldings of the body are the whole function
    ([normalizePoint_unfold] below is its recursive equation). *)
Definition normalizePoint : value -> option Sample :=
  normalizePoint_body (normalizePoint_body (fun _ => None)).

(** The comparator of both sorts: [(a, b) => a.timestamp - b.timestamp]. *)
Definition by_timestamp (a b : Sample) : num :=
  sub (timestamp a) (timestamp b).

(** One turn of the first loop of [normalizePoints]. *)
Definition push_normalized (normalized : list Sample) (point : value)
  : list Sample :=
  match normalizePoint point with
  | Some norm => normalized ++ [norm]
  | None => normalized
  end.

(** [deduped[deduped.length - 1]], when there is one. *)
Definition last_of (l : list Sample) : option Sample :=
  match l with [] => None | x :: _ => Some (last l x) end.

(** One turn of the second loop of [normalizePoints]. *)
Definition push_deduped (deduped : list Sample) (point : Sample)
  : list Sample :=
  match last_of deduped with
  | Some prev =>
      if strict_eq (timestamp prev) (timestamp point)
      then removelast deduped ++ [point]
      else deduped ++ [point]
  | None => deduped ++ [point]
  end.

Definition normalizePoints (points : value) : list Sample :=
  match points with
  | VArr items =>
      let normalized := fold_left push_normalized items [] in
      let normalized := sort by_timestamp normalized in
      fold_left push_deduped normalized []
  | _ => []
  end.

(** A series handed back to the normaliser: an array of sample objects. *)
Definition sample_value (s : Sample) : value :=
  VObj [("timestamp"%string, VNum (timestamp s));
        ("price_usd"%string, VNum (price_usd s))].

Definition series_value (series : list Sample) : value :=
  VArr (map sample_value series).

End Normalisers.

(** A host whose [Date.parse] recognises no string, for running the
    pipeline on inputs without date strings. *)
Definition Date_parse_none : string -> option Z := fun _ => None.

(** ** The downsampler (lines 129-152) *)

(** [Math.ceil(n / limit)] for a positive [limit]. *)
Definition ceil_div (n limit : nat) : nat := (n + limit - 1) / limit.

(** The indices the sampling loop visits: [i], [i + step], ... below
    [n].  The loop runs at most [n] times, which is the fuel. *)
Fixpoint stride_indices (fuel i step n : nat) : list nat :=
  match fuel with
  | O => []
  | S fuel' =>
      if i <? n then i :: stride_indices fuel' (i + step) step n else []
  end.

(** [ensure]: push [pt] unless a sampled item has its timestamp and
    price. *)
Definition ensure (pt : Sample) (sampled : list Sample) : list Sample :=
  if existsb
       (fun item =>
          strict_eq (timestamp item) (timestamp pt)
          && strict_eq (price_usd item) (price_usd pt))
       sampled
  then sampled
  else sampled ++ [pt].

(** The two reductions over the whole input. *)
Definition min_point (points : list Sample) (first : Sample) : Sample :=
  fold_left
    (fun min pt => if lt (price_usd pt) (price_usd min) then pt else min)
    points first.

Definition max_point (points : list Sample) (first : Sample) : Sample :=
  fold_left
    (fun max pt => if gt (price_usd pt) (price_usd max) then pt else max)
    points first.

(** [limit] is a count.  The elements of [points] are distinct objects
    (the normaliser builds a fresh one per sample), so the identity test
    [sampled[sampled.length - 1] !== last] is a test on the index of the
    last sampled element.  With [limit = 0] the stride is infinite and
    the loop visits index 0 only, as it does with a stride of [n]. *)
Definition downsample (points : list Sample) (limit : nat) : list Sample :=
  let n := length points in
  if n <=? limit then points
  else
    match points with
    | [] => points
    | first :: _ =>
        let step := if limit =? 0 then n else ceil_div n limit in
        let picked := stride_indices n 0 step n in
        let sampled := map (fun i => nth i points first) picked in
        let last := nth (n - 1) points first in
        let sampled :=
          if List.last picked 0 =? n - 1 then sampled else sampled ++ [last] in
        let minPt := min_point points first in
        let maxPt := max_point points first in
        let sampled := ensure minPt sampled in
        let sampled := ensure maxPt sampled in
        sort by_timestamp sampled
    end.

(** ** The time-window filter (lines 154-161)

    [now] is what [Date.now()] returns. *)
Definition applyTimeWindow (now : Z) (points : list Sample) (windowMs : num)
  : list Sample :=
  match points with
  | [] => points
  | first :: _ =>
      if negb (isFinite windowMs) || strict_eq windowMs PInf then points
      else
        let latestTimestamp := timestamp (last points first) in
        let anchor :=
          if isFinite latestTimestamp then latestTimestamp else of_Z now in
        let cutoff := sub anchor windowMs in
        filter (fun point => ge (timestamp point) cutoff) points
  end.

(** ** The cache loader (lines 20-47) *)

(** What a promise settles to. *)
Inductive settled (A : Type) : Type :=
| Fulfilled (a : A)
| Rejected (message : string).

Arguments Fulfilled {A} a.
Arguments Rejected {A} message.

(** What [fs.readFile(...).then(raw => JSON.parse(raw))] comes to: the
    read fails, the parse fails, or a value is parsed. *)
Inductive read : Type :=
| ReadFailed (message : string)
| ParseFailed (message : string)
| Parsed (data : value).

(** The [.catch] handler of line 28 rethrows under a new message. *)
Definition load_chain (r : read) : settled value :=
  match r with
  | Parsed data => Fulfilled data
  | ReadFailed message | ParseFailed message =>
      Rejected ("Failed to load historical cache: " ++ message)%string
  end.

(** The memo slot [longTermDataPromise]: [null], a pending promise with
    the callers suspended on it, or a fulfilled promise.  A rejected
    promise never stays in the slot: the handler that rejects it clears
    the slot first. *)
Inductive slot : Type :=
| Empty
| Pending (awaiting : list nat)
| Loaded (data : value).

(** A caller enters [loadLongTermData], or the read in flight settles. *)
Inductive event : Type :=
| Call (caller : nat)
| Settle (r : read).

(** What the loader does to the outside: it starts a read of the file,
    or a call returns or throws. *)
Inductive effect : Type :=
| ReadIssued
| Return (caller : nat) (data : value)
| Throw (caller : nat) (message : string).

(** Lines 33-34: what a caller gets once the promise it awaits settles. *)
Definition resume (caller : nat) (s : settled value) : effect :=
  match s with
  | Fulfilled data => Return caller (if isArray data then data else VArr [])
  | Rejected message => Throw caller message
  end.

(** Lines 23-35, event by event.  A call that finds the slot empty
    starts the read (line 26) and awaits its promise; a call that finds
    a promise in the slot awaits that one (line 33).  When the read
    settles, the chain of lines 27-31 settles the promise: a parsed
    value stays in the slot, a failure clears the slot (line 29) and
    rejects; then every suspended caller is resumed. *)
Definition loadLongTermData_step (longTermDataPromise : slot) (e : event)
  : slot * list effect :=
  match longTermDataPromise, e with
  | Empty, Call c => (Pending [c], [ReadIssued])
  | Pending awaiting, Call c => (Pending (awaiting ++ [c]), [])
  | Loaded data, Call c => (Loaded data, [resume c (Fulfilled data)])
  | Pending awaiting, Settle r =>
      let s := load_chain r in
      (match s with Fulfilled data => Loaded data | Rejected _ => Empty end,
       map (fun c => resume c s) awaiting)
  | _, Settle _ => (longTermDataPromise, [])
  end.

(** A run of the loader over a sequence of events. *)
Fixpoint loadLongTermData_run (st : slot) (events : list event)
  : slot * list effect :=
  match events with
  | [] => (st, [])
  | e :: rest =>
      let '(st1, out1) := loadLongTermData_step st e in
      let '(st2, out2) := loadLongTermData_run st1 rest in
      (st2, out1 ++ out2)
  end.

(** What [await loadLongTermData()] gives a caller, by how the read
    ends. *)
Definition loadLongTermData (r : read) : settled value :=
  match load_chain r with
  | Fulfilled data => Fulfilled (if isArray data then data else VArr [])
  | Rejected message => Rejected message
  end.

(** ** The handler of [/api/chart-data] (lines 9-18 and 163-186) *)

Record TimeframeSpec : Type := { windowMs : num; limit : nat }.

Definition TIMEFRAME_CONFIG : list (string * TimeframeSpec) :=
  [ ("1h"%string, {| windowMs := of_Z (1 * 60 * 60 * 1000); limit := 120 |});
    ("6h"%string, {| windowMs := of_Z (6 * 60 * 60 * 1000); limit := 150 |});
    ("24h"%string, {| windowMs := of_Z (24 * 60 * 60 * 1000); limit := 200 |});
    ("1y"%string,
      {| windowMs := of_Z (365 * 24 * 60 * 60 * 1000); limit := 500 |});
    ("1y+"%string, {| windowMs := PInf; limit := 500 |});
    ("long"%string, {| windowMs := PInf; limit := 500 |});
    ("max"%string, {| windowMs := PInf; limit := 500 |});
    ("all"%string, {| windowMs := PInf; limit := 500 |}) ].

(** What [table[key]] finds: an own property, or a member inherited from
    [Object.prototype].  The handlers index with a lower-cased key, and
    the only inherited names without a capital are [constructor] and
    [__proto__]; the value found there has none of the fields of a
    timeframe. *)
Inductive entry (T : Type) : Type :=
| Own (t : T)
| Inherited.

Arguments Own {T} t.
Arguments Inherited {T}.

Fixpoint own_property (T : Type) (table : list (string * T)) (key : string)
  : option T :=
  match table with
  | [] => None
  | (k, t) :: rest =>
      if String.eqb k key then Some t else own_property T rest key
  end.

Arguments own_property {T} table key.

Definition property (T : Type) (table : list (string * T)) (key : string)
  : option (entry T) :=
  match own_property table key with
  | Some t => Some (Own t)
  | None =>
      if (String.eqb key "constructor" || String.eqb key "__proto__")%bool
      then Some Inherited
      else None
  end.

Arguments property {T} table key.

(** Lines 164-165; [query] is [req.query.timeframe]. *)
Definition requested_timeframe (query : value) : string :=
  let timeframeRaw := match query with VStr s => s | _ => "all"%string end in
  let timeframe := toLowerCase (trim timeframeRaw) in
  if String.eqb timeframe "" then "all"%string else timeframe.

(** [l.slice(-k)]; [slice(-0)] is [slice(0)], the whole array. *)
Definition slice_last (A : Type) (k : nat) (l : list A) : list A :=
  if k =? 0 then l else skipn (length l - k) l.

Arguments slice_last {A} k l.

Inductive body : Type :=
| Series (points : list Sample)
| Error (error : string).

Record response : Type := { status : nat; payload : body }.

Section Server.

Variable Date_parse : string -> option Z.

(** What [await loadNormalizedLongTermData()] gives (lines 37-47). *)
Definition loadNormalizedLongTermData (r : read) : settled (list Sample) :=
  match loadLongTermData r with
  | Fulfilled data => Fulfilled (normalizePoints Date_parse data)
  | Rejected message => Rejected message
  end.

(** Line 174, and the [windowMs] handed to the filter: the fields of an
    inherited member are [undefined], which is not a finite number. *)
Definition config_limit (config : entry TimeframeSpec) : nat :=
  match config with
  | Own c => if 0 <? limit c then limit c else 500
  | Inherited => 500
  end.

Definition config_windowMs (config : entry TimeframeSpec) : num :=
  match config with
  | Own c => windowMs c
  | Inherited => NaN
  end.

Definition chart_data (now : Z) (file : read) (query : value) : response :=
  let timeframe := requested_timeframe query in
  match property TIMEFRAME_CONFIG timeframe with
  | None => {| status := 400; payload := Error "Unsupported timeframe" |}
  | Some config =>
      match loadNormalizedLongTermData file with
      | Rejected _ =>
          {| status := 502; payload := Error "Failed to load chart data" |}
      | Fulfilled normalized =>
          let limit := config_limit config in
          let windowed :=
            applyTimeWindow now normalized (config_windowMs config) in
          let windowed :=
            if length windowed <? 2
            then slice_last (Nat.min limit (length normalized)) normalized
            else windowed in
          let sampled := downsample windowed limit in
          {| status := 200; payload := Series sampled |}
      end
  end.

End Server.

(** ** The variant with a real-time feed (lines 195-417)

    Its normalisers, downsampler and [loadLongTermData] are the text of
    the first variant.  The window filter and the handler differ. *)

Module RealTimeVariant.

(** Lines 341-345: the window is measured back from the wall clock. *)
Definition applyTimeWindow (now : Z) (points : list Sample) (windowMs : num)
  : list Sample :=
  if negb (isFinite windowMs) then points
  else
    let cutoff := sub (of_Z now) windowMs in
    filter (fun point => ge (timestamp point) cutoff) points.

Definition LONG_TERM_TIMEFRAMES : list string :=
  ["all"; "1y"; "1y+"; "long"; "max"]%string.

Record RealTimeSpec : Type :=
  { granularity : string; rt_limit : nat; rt_windowMs : num }.

Definition REAL_TIME_TIMEFRAMES : list (string * RealTimeSpec) :=
  [ ("1h"%string,
      {| granularity := "1m"; rt_limit := 90;
         rt_windowMs := of_Z (60 * 60 * 1000) |});
    ("6h"%string,
      {| granularity := "5m"; rt_limit := 90;
         rt_windowMs := of_Z (6 * 60 * 60 * 1000) |});
    ("24h"%string,
      {| granularity := "15m"; rt_limit := 96;
         rt_windowMs := of_Z (24 * 60 * 60 * 1000) |}) ].

(** Line 397: [Math.max(1, Math.min(cfg.limit || 99, 99))]. *)
Definition fallback_limit (cfg : entry RealTimeSpec) : nat :=
  let l :=
    match cfg with
    | Own c => if rt_limit c =? 0 then 99 else rt_limit c
    | Inherited => 99
    end in
  Nat.max 1 (Nat.min l 99).

Definition fallback_windowMs (cfg : entry RealTimeSpec) : num :=
  match cfg with
  | Own c => rt_windowMs c
  | Inherited => NaN
  end.

(** The upstream feed (lines 347-377), as the function sees it.  The
    endpoint is the environment's: unset, a string [new URL] refuses, or
    a URL.  The request ends with the fetch rejecting (network failure,
    or the abort after 10 seconds) or with a response: its status and
    what [response.json()] settles to. *)
Inductive endpoint : Type :=
| NotConfigured
| Malformed
| Configured.

Inductive reply : Type :=
| Unreachable (message : string)
| Response (code : nat) (json : settled value).

(** [response.ok]. *)
Definition ok (code : nat) : bool := (200 <=? code) && (code <=? 299).

(** [a || b]. *)
Definition or_else (a b : value) : value := if truthy a then a else b.

(** Line 371; reading a property of [null] throws. *)
Definition rawPoints_of (payload : value) : settled value :=
  if isArray payload then Fulfilled payload
  else
    match payload with
    | VNull | VUndefined =>
        Rejected "Cannot read properties of null (reading 'data')"
    | _ =>
        Fulfilled
          (or_else (or_else (get payload "data") (get payload "result"))
             (VArr []))
    end.

(** The count handed to [slice] on line 373, [Math.min(cfg.limit, 99)];
    for an inherited member it is [NaN], and [slice(-NaN)] is
    [slice(0)]. *)
Definition feed_limit (cfg : entry RealTimeSpec) : nat :=
  match cfg with
  | Own c => Nat.min (rt_limit c) 99
  | Inherited => 0
  end.

Section Server.

Variable Date_parse : string -> option Z.

(** Lines 347-377: what [await fetchRealTimeSeries(timeframe)] settles
    to.  The function is called by the handler alone, with its trimmed,
    lower-cased timeframe. *)
Definition fetchRealTimeSeries (REAL_TIME_API_ENDPOINT : endpoint)
  (timeframe : string) (upstream : reply) : settled (list Sample) :=
  match REAL_TIME_API_ENDPOINT with
  | NotConfigured => Rejected "REAL_TIME_API_ENDPOINT is not configured"
  | Malformed | Configured =>
      match property REAL_TIME_TIMEFRAMES timeframe with
      | None =>
          Rejected ("Unsupported real-time timeframe: " ++ timeframe)%string
      | Some cfg =>
          match REAL_TIME_API_ENDPOINT, upstream with
          | Malformed, _ => Rejected "Invalid URL"
          | _, Unreachable message => Rejected message
          | _, Response code json =>
              if negb (ok code) then
                Rejected
                  ("Real-time API error: "
                     ++ NilZero.string_of_uint (Nat.to_uint code))%string
              else
                match json with
                | Rejected message => Rejected message
                | Fulfilled payload =>
                    match rawPoints_of payload with
                    | Rejected message => Rejected message
                    | Fulfilled rawPoints =>
                        let normalized := normalizePoints Date_parse rawPoints in
                        Fulfilled (slice_last (feed_limit cfg) normalized)
                    end
                end
          end
      end
  end.

(** Lines 379-409.  [upstream] is what [await fetchRealTimeSeries(...)]
    settles to: the series the feed gave, or a failure. *)
Definition chart_data (now : Z) (file : read)
  (upstream : settled (list Sample)) (query : value) : response :=
  let timeframe := requested_timeframe query in
  let failed := {| status := 502; payload := Error "Failed to load chart data" |} in
  if existsb (String.eqb timeframe) LONG_TERM_TIMEFRAMES then
    match loadLongTermData file with
    | Rejected _ => failed
    | Fulfilled cached =>
        {| status := 200;
           payload := Series (downsample (normalizePoints Date_parse cached) 500) |}
    end
  else
    match property REAL_TIME_TIMEFRAMES timeframe with
    | Some cfg =>
        match upstream with
        | Fulfilled points => {| status := 200; payload := Series points |}
        | Rejected _ =>
            match loadLongTermData file with
            | Rejected _ => failed
            | Fulfilled cached =>
                let normalized := normalizePoints Date_parse cached in
                let windowed :=
                  applyTimeWindow now normalized (fallback_windowMs cfg) in
                let limit := fallback_limit cfg in
                {| status := 200;
                   payload := Series (downsample windowed limit) |}
            end
        end
    | None => {| status := 400; payload := Error "Unsupported timeframe" |}
    end.

(** The handler with the feed behind it. *)
Definition serve (now : Z) (file : read) (REAL_TIME_API_ENDPOINT : endpoint)
  (upstream : reply) (query : value) : response :=
  chart_data now file
    (fetchRealTimeSeries REAL_TIME_API_ENDPOINT (requested_timeframe query)
       upstream)
    query.

End Server.

End RealTimeVariant.

(** ** The two memo slots of the cache-backed server (lines 20-47)

    [loadNormalizedLongTermData] keeps a slot of its own and is the one
    caller of [loadLongTermData]: the promise it stores awaits the raw
    load, normalises what it gets, and on failure clears its slot and
    rethrows. *)

Inductive normalized_slot : Type :=
| NEmpty
| NPending (awaiting : list nat)
| NLoaded (series : list Sample).

Record memo : Type :=
  { normalizedLongTermDataPromise : normalized_slot;
    longTermDataPromise : slot }.

(** A request enters [loadNormalizedLongTermData], or the read settles. *)
Inductive memo_event : Type :=
| Request (caller : nat)
| ReadSettles (r : read).

Inductive memo_effect : Type :=
| Reads
| Gives (caller : nat) (series : list Sample)
| Fails (caller : nat) (message : string).

Section Memo.

Variable Date_parse : string -> option Z.

(** What the chain of lines 39-44 does when the raw load, awaited by
    the chain under the caller number 0, hands it an effect. *)
Definition chain_step (st : normalized_slot * list memo_effect) (e : effect)
  : normalized_slot * list memo_effect :=
  let '(nslot, out) := st in
  match e, nslot with
  | ReadIssued, _ => (nslot, out ++ [Reads])
  | Return _ data, NPending awaiting =>
      let series := normalizePoints Date_parse data in
      (NLoaded series, out ++ map (fun c => Gives c series) awaiting)
  | Throw _ message, NPending awaiting =>
      (NEmpty, out ++ map (fun c => Fails c message) awaiting)
  | _, _ => (nslot, out)
  end.

Definition memo_step (m : memo) (e : memo_event) : memo * list memo_effect :=
  match e with
  | Request c =>
      match normalizedLongTermDataPromise m with
      | NEmpty =>
          let '(raw, effects) :=
            loadLongTermData_step (longTermDataPromise m) (Call 0) in
          let '(nslot, out) := fold_left chain_step effects (NPending [c], []) in
          ({| normalizedLongTermDataPromise := nslot;
              longTermDataPromise := raw |}, out)
      | NPending awaiting =>
          ({| normalizedLongTermDataPromise := NPending (awaiting ++ [c]);
              longTermDataPromise := longTermDataPromise m |}, [])
      | NLoaded series => (m, [Gives c series])
      end
  | ReadSettles r =>
      let '(raw, effects) :=
        loadLongTermData_step (longTermDataPromise m) (Settle r) in
      let '(nslot, out) :=
        fold_left chain_step effects (normalizedLongTermDataPromise m, []) in
      ({| normalizedLongTermDataPromise := nslot;
          longTermDataPromise := raw |}, out)
  end.

Fixpoint memo_run (m : memo) (events : list memo_event)
  : memo * list memo_effect :=
  match events with
  | [] => (m, [])
  | e :: rest =>
      let '(m1, out1) := memo_step m e in
      let '(m2, out2) := memo_run m1 rest in
      (m2, out1 ++ out2)
  end.

End Memo.

(** The server at start: both slots hold [null]. *)
Definition memo_start : memo :=
  {| normalizedLongTermDataPromise := NEmpty; longTermDataPromise := Empty |}.

(** ** Counting over a run of the raw loader *)

Definition reads (effects : list effect) : nat :=
  length (filter (fun e => match e with ReadIssued => true | _ => false end)
            effects).

Definition answers (effects : list effect) : nat :=
  length (filter (fun e => match e with ReadIssued => false | _ => true end)
            effects).

Definition calls (events : list event) : nat :=
  length (filter (fun e => match e with Call _ => true | _ => false end)
            events).

Definition failures (events : list event) : nat :=
  length
    (filter
       (fun e =>
          match e with
          | Settle (ReadFailed _) | Settle (ParseFailed _) => true
          | _ => false
          end)
       events).

Definition suspended (st : slot) : nat :=
  match st with Pending awaiting => length awaiting | _ => 0 end.

(** The states the two slots can be in together. *)
Definition consistent (Date_parse : string -> option Z) (m : memo) : Prop :=
  match normalizedLongTermDataPromise m, longTermDataPromise m with
  | NEmpty, Empty => True
  | NPending awaiting, Pending inner => awaiting <> [] /\ inner = [0]
  | NLoaded series, Loaded data =>
      series = normalizePoints Date_parse (if isArray data then data else VArr [])
  | _, _ => False
  end.

(** ** What the specification says, in its own words

    Definitions that follow the text of the specification; the theorems
    below compare them with the code above. *)

(** Section 4.2: the anchor is the timestamp of the last sample if the
    series is non-empty and that timestamp is finite, the wall clock
    otherwise. *)
Definition spec_anchor (now : Z) (series : list Sample) : num :=
  match last_of series with
  | Some s => if isFinite (timestamp s) then timestamp s else of_Z now
  | None => of_Z now
  end.

(** Section 4.2: all samples with timestamp at or after the cutoff. *)
Definition spec_window (anchor : num) (series : list Sample) (windowMs : num)
  : list Sample :=
  filter (fun s => ge (timestamp s) (sub anchor windowMs)) series.

(** The last [k] samples of a series. *)
Definition spec_tail (k : nat) (series : list Sample) : list Sample :=
  skipn (length series - k) series.

(** Section 4.6, step 2, after the cache is loaded and normalised and
    before the downsampler: window by the timeframe's [windowMs] from
    the last sample of the dataset; with fewer than 2 samples left, take
    the tail of the full series sized to the limit. *)
Definition spec_cache_windowed (normalized : list Sample) (tf : TimeframeSpec)
  : list Sample :=
  let windowed :=
    if isFinite (windowMs tf)
    then
      match last_of normalized with
      | Some latest => spec_window (timestamp latest) normalized (windowMs tf)
      | None => []
      end
    else normalized in
  if length windowed <? 2 then spec_tail (limit tf) normalized else windowed.

(** A sample with both fields finite, and a list of them. *)
Definition finite_sample (s : Sample) : Prop :=
  isFinite (timestamp s) = true /\ isFinite (price_usd s) = true.

(** Strictly ascending timestamps, pair by neighbouring pair. *)
Definition ascending (series : list Sample) : Prop :=
  forall i a b,
    nth_error series i = Some a -> nth_error series (S i) = Some b ->
    lt (timestamp a) (timestamp b) = true.

(** Section 4.3: a sample of the series with its lowest price, and one
    with its highest. *)
Definition lowest_price (series : list Sample) (m : Sample) : Prop :=
  In m series
  /\ forall p, In p series -> le (price_usd m) (price_usd p) = true.

Definition highest_price (series : list Sample) (m : Sample) : Prop :=
  In m series
  /\ forall p, In p series -> ge (price_usd m) (price_usd p) = true.

(** Section 4.3, for a positive limit: [out] is what the downsampler
    returns for [series].  A series no longer than the limit is returned
    unchanged.  Otherwise, with [stride = ceil(length / limit)], the
    output holds every [stride]-th sample from index 0, the last sample,
    a sample with the lowest and one with the highest price of the whole
    input, and nothing else; it ascends by timestamp and exceeds the
    limit by at most 3. *)
Definition spec_downsampled (series : list Sample) (limit : nat)
  (out : list Sample) : Prop :=
  if length series <=? limit then out = series
  else
    exists stride,
      (stride - 1) * limit < length series <= stride * limit
      /\ (forall k s, nth_error series (k * stride) = Some s -> In s out)
      /\ (forall s, last_of series = Some s -> In s out)
      /\ (exists m, lowest_price series m /\ In m out)
      /\ (exists m, highest_price series m /\ In m out)
      /\ (forall s, In s out ->
            (exists k, nth_error series (k * stride) = Some s)
            \/ last_of series = Some s
            \/ lowest_price series s
            \/ highest_price series s)
      /\ ascending out
      /\ length out <= limit + 3.

(** No two samples of the series share a timestamp. *)
Definition distinct_timestamps (series : list Sample) : Prop :=
  forall i j a b,
    i <> j -> nth_error series i = Some a -> nth_error series j = Some b ->
    strict_eq (timestamp a) (timestamp b) = false.

(** A string of white space only (the empty string is one). *)
Fixpoint whitespace_only (s : string) : bool :=
  match s with
  | EmptyString => true
  | String c s' => is_white c && whitespace_only s'
  end.

(** ** Auxiliary definitions for the proofs *)

(** The order of two samples by timestamp, weak and strict. *)
Definition ts_le (a b : Sample) : Prop := le (timestamp a) (timestamp b) = true.

Definition ts_lt (a b : Sample) : Prop := lt (timestamp a) (timestamp b) = true.

(** The samples of a list that carry the timestamp [t]. *)
Definition at_timestamp (t : num) (l : list Sample) : list Sample :=
  filter (fun s => strict_eq (timestamp s) t) l.

(** The second loop of [normalizePoints] as a recursion on its input:
    an element stays unless its successor has the same timestamp. *)
Fixpoint dedup (l : list Sample) : list Sample :=
  match l with
  | [] => []
  | x :: rest =>
      match rest with
      | [] => [x]
      | y :: _ =>
          if strict_eq (timestamp x) (timestamp y)
          then dedup rest
          else x :: dedup rest
      end
  end.

(** The last element of a list, as a list of at most one element. *)
Definition last_only (l : list Sample) : list Sample :=
  match last_of l with Some x => [x] | None => [] end.

(** The first loop of [normalizePoints] as a map: the samples of the
    records that normalise, in input order. *)
Definition collect (Date_parse : string -> option Z) (items : list value)
  : list Sample :=
  flat_map
    (fun point =>
       match normalizePoint Date_parse point with
       | Some norm => [norm]
       | None => []
       end)
    items.

(** What [downsample] has sampled before the extremes are ensured:
    every [step]-th point, and the last point if the stride missed it. *)
Definition strided (points : list Sample) (limit : nat) (first : Sample)
  : list Sample :=
  let n := length points in
  let step := if limit =? 0 then n else ceil_div n limit in
  let picked := stride_indices n 0 step n in
  let sampled := map (fun i => nth i points first) picked in
  if List.last picked 0 =? n - 1 then sampled
  else sampled ++ [nth (n - 1) points first].

(** What the second pass makes of a sample: the timestamp is
    classified again, the price is kept. *)
Definition renormalized (s : Sample) : Sample :=
  {| timestamp := normalizeTimestamp_number (timestamp s);
     price_usd := price_usd s |}.

(** * Properties *)

(** ** Numbers *)

Lemma gt_Fin (x c : Q) : gt (Fin x) (Fin c) = true <-> (c < x)%Q.
Proof.
  unfold gt, lt; simpl. rewrite Qlt_alt.
  destruct (c ?= x)%Q; split; congruence.
Qed.

Lemma gt_Fin_false (x c : Q) : gt (Fin x) (Fin c) = false <-> (x <= c)%Q.
Proof.
  unfold gt, lt; simpl. rewrite Qle_alt, <- (Qcompare_antisym c x).
  destruct (c ?= x)%Q; simpl; split; congruence.
Qed.

Lemma lt_Fin (x y : Q) : lt (Fin x) (Fin y) = true <-> (x < y)%Q.
Proof. apply (gt_Fin y x). Qed.

Lemma lt_Fin_false (x y : Q) : lt (Fin x) (Fin y) = false <-> (y <= x)%Q.
Proof. apply (gt_Fin_false y x). Qed.

Lemma le_Fin (x y : Q) : le (Fin x) (Fin y) = true <-> (x <= y)%Q.
Proof.
  unfold le; simpl. rewrite Qle_alt.
  destruct (x ?= y)%Q; split; congruence.
Qed.

Lemma strict_eq_Fin (x y : Q) : strict_eq (Fin x) (Fin y) = true <-> (x == y)%Q.
Proof.
  unfold strict_eq; simpl. rewrite Qeq_alt.
  destruct (x ?= y)%Q; split; congruence.
Qed.

Lemma isFinite_Fin (a : num) : isFinite a = true -> exists q, a = Fin q.
Proof. destruct a; simpl; try discriminate. eauto. Qed.

Lemma le_trans (a b c : num) : le a b = true -> le b c = true -> le a c = true.
Proof.
  destruct a, b, c; try discriminate; try reflexivity.
  rewrite !le_Fin. apply Qle_trans.
Qed.

Lemma le_refl (a : num) : isFinite a = true -> le a a = true.
Proof.
  intros H. destruct (isFinite_Fin _ H) as [q ->]. apply le_Fin. lra.
Qed.

Lemma lt_le (a b : num) : lt a b = true -> le a b = true.
Proof. unfold lt, le. destruct (compare a b) as [[]|]; congruence. Qed.

Lemma not_lt_le (a b : num) :
  isFinite a = true -> isFinite b = true -> lt a b = false -> le b a = true.
Proof.
  intros Ha Hb. destruct (isFinite_Fin _ Ha) as [x ->].
  destruct (isFinite_Fin _ Hb) as [y ->].
  rewrite lt_Fin_false, le_Fin. trivial.
Qed.

Lemma lt_not_strict_eq (a b : num) : lt a b = true -> strict_eq a b = false.
Proof. unfold lt, strict_eq. destruct (compare a b) as [[]|]; congruence. Qed.

(** ** The timestamp classifier *)

Lemma normalizeTimestamp_number_two_way (v : Q) :
  normalizeTimestamp_number (Fin v) =
    if gt (Fin v) (Fin 1e10%Q)
    then Math_round (Fin v)
    else Math_round (mul (Fin v) (Fin 1000%Q)).
Proof.
  unfold normalizeTimestamp_number. cbn [isFinite negb].
  destruct (gt (Fin v) (Fin 1e10%Q)) eqn:H10.
  - destruct (gt (Fin v) (Fin 1e14%Q)); [reflexivity|].
    destruct (gt (Fin v) (Fin 1e12%Q)); reflexivity.
  - apply gt_Fin_false in H10.
    destruct (gt (Fin v) (Fin 1e14%Q)) eqn:H14.
    { apply gt_Fin in H14. exfalso.
      apply (Qlt_irrefl 1e14%Q).
      eapply Qlt_le_trans; [exact H14|].
      eapply Qle_trans; [exact H10|]. discriminate. }
    destruct (gt (Fin v) (Fin 1e12%Q)) eqn:H12.
    { apply gt_Fin in H12. exfalso.
      apply (Qlt_irrefl 1e12%Q).
      eapply Qlt_le_trans; [exact H12|].
      eapply Qle_trans; [exact H10|]. discriminate. }
    destruct (gt (Fin v) (Fin 1e9%Q)); reflexivity.
Qed.

(** C1, as the code has it: a finite number above 1e10 is taken as
    milliseconds and rounded; a finite number at or below 1e10 is taken
    as seconds, scaled by 1000 and rounded.  The threshold is 1e10, not
    1e9: the branch for numbers between 1e9 and 1e10 scales as well. *)
Theorem normalizeTimestamp_two_way (Date_parse : string -> option Z) (v : Q) :
  normalizeTimestamp Date_parse (VNum (Fin v)) =
    if gt (Fin v) (Fin 1e10%Q)
    then Math_round (Fin v)
    else Math_round (mul (Fin v) (Fin 1000%Q)).
Proof.
  cbn [normalizeTimestamp]. apply normalizeTimestamp_number_two_way.
Qed.

(** C1 as stated fails: 1700000000 is above 1e9, and the classifier
    scales it by 1000 instead of returning it rounded. *)
Lemma normalizeTimestamp_1e9_counterexample :
  gt (Fin 1700000000%Q) (Fin 1e9%Q) = true
  /\ normalizeTimestamp Date_parse_none (VNum (Fin 1700000000%Q))
     = Fin 1700000000000%Q
  /\ Math_round (Fin 1700000000%Q) = Fin 1700000000%Q
  /\ normalizeTimestamp Date_parse_none (VNum (Fin 1700000000%Q))
     <> Math_round (Fin 1700000000%Q).
Proof.
  repeat split; try (vm_compute; reflexivity).
  vm_compute. intro H. discriminate H.
Qed.

(** ** Strings that read as zero *)

Lemma trim_whitespace_only (s : string) :
  whitespace_only s = true -> trim s = EmptyString.
Proof.
  unfold trim. induction s as [|c s IH]; simpl; [reflexivity|].
  intros H. apply andb_prop in H as [Hc Hs]. rewrite Hc. auto.
Qed.

Lemma Number_of_whitespace (s : string) :
  whitespace_only s = true -> Number_of_string s = of_Z 0.
Proof.
  intros H. unfold Number_of_string. rewrite (trim_whitespace_only s H).
  reflexivity.
Qed.

(** C10: an empty or white-space-only string is read as the number 0 by
    both coercions, so a pair of such strings is a sample at timestamp 0
    with price 0 rather than a rejected record, and the series of a
    collection holding that pair holds that sample. *)
Theorem blank_strings_normalize_to_zero (Date_parse : string -> option Z)
  (ts price : string) :
  whitespace_only ts = true ->
  whitespace_only price = true ->
  let zero := {| timestamp := of_Z 0; price_usd := of_Z 0 |} in
  normalizeTimestamp Date_parse (VStr ts) = of_Z 0
  /\ normalizePrice (VStr price) = of_Z 0
  /\ normalizePoint Date_parse (VArr [VStr ts; VStr price]) = Some zero
  /\ normalizePoints Date_parse (VArr [VArr [VStr ts; VStr price]]) = [zero].
Proof.
  intros Hts Hprice zero.
  assert (Et : normalizeTimestamp Date_parse (VStr ts) = of_Z 0).
  { cbn [normalizeTimestamp]. rewrite (Number_of_whitespace ts Hts).
    vm_compute. reflexivity. }
  assert (Ep : normalizePrice (VStr price) = of_Z 0).
  { cbn [normalizePrice]. rewrite (Number_of_whitespace price Hprice).
    reflexivity. }
  assert (Epoint : normalizePoint Date_parse (VArr [VStr ts; VStr price])
                   = Some zero).
  { unfold normalizePoint, normalizePoint_body.
    cbn [truthy negb nth]. rewrite Et, Ep. reflexivity. }
  repeat split; trivial.
  unfold normalizePoints. cbn [fold_left]. unfold push_normalized.
  rewrite Epoint. reflexivity.
Qed.

(** The record [["", ""]] of the claim. *)
Lemma blank_strings_witness :
  let zero := {| timestamp := of_Z 0; price_usd := of_Z 0 |} in
  normalizeTimestamp Date_parse_none (VStr "") = of_Z 0
  /\ normalizePrice (VStr "") = of_Z 0
  /\ normalizePoint Date_parse_none (VArr [VStr ""; VStr ""]) = Some zero
  /\ normalizePoints Date_parse_none (VArr [VArr [VStr ""; VStr ""]]) = [zero].
Proof.
  exact (blank_strings_normalize_to_zero Date_parse_none "" "" eq_refl eq_refl).
Defined.

(** ** Records that carry a pair under [value] *)

Lemma normalizePoint_body_array (Date_parse : string -> option Z)
  (self1 self2 : value -> option Sample) (items : list value) :
  normalizePoint_body Date_parse self1 (VArr items)
  = normalizePoint_body Date_parse self2 (VArr items).
Proof. reflexivity. Qed.

(** The recursive equation of [normalizePoint]. *)
Lemma normalizePoint_unfold (Date_parse : string -> option Z) (point : value) :
  normalizePoint Date_parse point
  = normalizePoint_body Date_parse (normalizePoint Date_parse) point.
Proof.
  unfold normalizePoint at 1.
  destruct point; try reflexivity;
    unfold normalizePoint_body at 1 3; cbn [truthy negb];
    repeat match goal with |- context [if ?b then _ else _] => destruct b eqn:? end;
    try reflexivity.
  all: match goal with
       | H : (_ && isArray ?v)%bool = true |- _ =>
           apply andb_prop in H as [_ H]; destruct v; try discriminate H
       end.
  all: apply normalizePoint_body_array.
Qed.

(** C9, as the code has it: a keyed record whose own aliases give a
    finite timestamp but no finite price, and whose [value] is an array
    that normalises to a sample, yields that sample.  The finite
    timestamp of the record itself is required: line 101 tests it before
    recursing. *)
Theorem normalizePoint_value_pair (Date_parse : string -> option Z)
  (props : list (string * value)) (pair : list value) (inner : Sample) :
  get (VObj props) "value" = VArr pair ->
  normalizePoint Date_parse (VArr pair) = Some inner ->
  isFinite (aliased_timestamp Date_parse (VObj props)) = true ->
  isFinite (aliased_price (VObj props)) = false ->
  normalizePoint Date_parse (VObj props) = Some inner.
Proof.
  intros Hvalue Hinner Hts Hprice.
  rewrite normalizePoint_unfold.
  unfold normalizePoint_body. cbn [truthy negb].
  rewrite Hts, Hprice, Hvalue. cbn [andb isArray].
  exact Hinner.
Qed.

(** A record with a timestamp of its own and a pair under [value]:
    the sample is the pair's. *)
Lemma normalizePoint_value_pair_witness :
  normalizePoint Date_parse_none
    (VObj [("t"%string, VNum (Fin 1700000000%Q));
           ("value"%string,
             VArr [VNum (Fin 1700000100%Q); VNum (Fin 1900%Q)])])
  = Some {| timestamp := Fin 1700000100000%Q; price_usd := Fin 1900%Q |}.
Proof.
  apply (normalizePoint_value_pair Date_parse_none
           [("t"%string, VNum (Fin 1700000000%Q));
            ("value"%string,
              VArr [VNum (Fin 1700000100%Q); VNum (Fin 1900%Q)])]
           [VNum (Fin 1700000100%Q); VNum (Fin 1900%Q)]).
  - reflexivity.
  - vm_compute. reflexivity.
  - vm_compute. reflexivity.
  - vm_compute. reflexivity.
Defined.

(** C9 as stated fails: a record with nothing but a [value] pair has no
    timestamp of its own and is rejected, although the pair normalises
    to a sample and the record's own aliases give none. *)
Lemma normalizePoint_value_pair_counterexample :
  let pair := VArr [VNum (Fin 1700000000%Q); VNum (Fin 1900%Q)] in
  let record := VObj [("value"%string, pair)] in
  normalizePoint Date_parse_none pair
  = Some {| timestamp := Fin 1700000000000%Q; price_usd := Fin 1900%Q |}
  /\ isFinite (aliased_price record) = false
  /\ normalizePoint Date_parse_none record = None.
Proof. repeat split; vm_compute; reflexivity. Qed.

(** ** The cache loader *)

(** C8: when the read or the parse fails while callers await the load,
    every one of them gets the failure, the memo slot is cleared, and
    the next call issues a fresh read; when the parsed value is not an
    array, every awaiting caller and every later one gets the empty
    collection.  The last part runs the loader from the empty slot: the
    callers that arrive during one read share it, and all of them get
    its failure. *)
Theorem loadLongTermData_failure_and_non_array
  (awaiting : list nat) (message : string) (data : value) (next : nat)
  (first : nat) (others : list nat) :
  isArray data = false ->
  let rethrown := ("Failed to load historical cache: " ++ message)%string in
  loadLongTermData_step (Pending awaiting) (Settle (ReadFailed message))
  = (Empty, map (fun c => Throw c rethrown) awaiting)
  /\ loadLongTermData_step (Pending awaiting) (Settle (ParseFailed message))
     = (Empty, map (fun c => Throw c rethrown) awaiting)
  /\ loadLongTermData_step Empty (Call next) = (Pending [next], [ReadIssued])
  /\ loadLongTermData_step (Pending awaiting) (Settle (Parsed data))
     = (Loaded data, map (fun c => Return c (VArr [])) awaiting)
  /\ loadLongTermData_step (Loaded data) (Call next)
     = (Loaded data, [Return next (VArr [])])
  /\ loadLongTermData_run Empty
       (Call first :: map Call others
          ++ [Settle (ReadFailed message); Call next])
     = (Pending [next],
        ReadIssued :: map (fun c => Throw c rethrown) (first :: others)
          ++ [ReadIssued]).
Proof.
  intros Hdata rethrown.
  repeat split; try reflexivity.
  - cbn. rewrite Hdata. reflexivity.
  - cbn. rewrite Hdata. reflexivity.
  - cbn [loadLongTermData_run loadLongTermData_step].
    assert (G : forall ws acc,
      loadLongTermData_run (Pending acc)
        (map Call ws ++ [Settle (ReadFailed message); Call next])
      = (Pending [next],
         map (fun c => Throw c rethrown) (acc ++ ws) ++ [ReadIssued])).
    { induction ws as [|w ws IH]; intros acc.
      - rewrite app_nil_r. reflexivity.
      - cbn [map app loadLongTermData_run loadLongTermData_step].
        rewrite IH, <- app_assoc. reflexivity. }
    rewrite G. reflexivity.
Qed.

(** Callers 1 and 2 await a read that fails with ENOENT; a parsed
    object is not an array. *)
Lemma loadLongTermData_witness :
  loadLongTermData_step (Pending [1; 2]) (Settle (ReadFailed "ENOENT"))
  = (Empty,
     [Throw 1 "Failed to load historical cache: ENOENT";
      Throw 2 "Failed to load historical cache: ENOENT"])
  /\ loadLongTermData_step (Pending [1; 2]) (Settle (Parsed (VObj [])))
     = (Loaded (VObj []), [Return 1 (VArr []); Return 2 (VArr [])])
  /\ loadLongTermData_run Empty
       [Call 1; Call 2; Settle (ReadFailed "ENOENT"); Call 3]
     = (Pending [3],
        [ReadIssued;
         Throw 1 "Failed to load historical cache: ENOENT";
         Throw 2 "Failed to load historical cache: ENOENT";
         ReadIssued]).
Proof.
  pose proof (loadLongTermData_failure_and_non_array
                [1; 2] "ENOENT" (VObj []) 3 1 [2] eq_refl) as H.
  cbv zeta in H. destruct H as (H1 & _ & _ & H4 & _ & H6).
  exact (conj H1 (conj H4 H6)).
Defined.

(** ** Sorting by timestamp *)

Section SortFacts.
Variable A : Type.
Variable cmp : A -> A -> num.

Lemma insert_perm (x : A) (l : list A) : Permutation (x :: l) (insert cmp x l).
Proof.
  induction l as [|y l IH]; simpl; [reflexivity|].
  destruct (gt (cmp x y) (of_Z 0)); [|reflexivity].
  rewrite perm_swap. apply perm_skip, IH.
Qed.

Lemma sort_perm (l : list A) : Permutation l (sort cmp l).
Proof.
  induction l as [|x l IH]; simpl; [reflexivity|].
  rewrite <- insert_perm. apply perm_skip, IH.
Qed.

Lemma sort_length (l : list A) : length (sort cmp l) = length l.
Proof. symmetry. apply Permutation_length, sort_perm. Qed.

Lemma sort_In (x : A) (l : list A) : In x (sort cmp l) <-> In x l.
Proof.
  split; apply Permutation_in; [symmetry|]; apply sort_perm.
Qed.

Lemma sort_Forall (P : A -> Prop) (l : list A) :
  Forall P l -> Forall P (sort cmp l).
Proof. apply Permutation_Forall, sort_perm. Qed.

End SortFacts.

Lemma by_timestamp_gt (a b : Sample) :
  isFinite (timestamp a) = true -> isFinite (timestamp b) = true ->
  gt (by_timestamp a b) (of_Z 0) = lt (timestamp b) (timestamp a).
Proof.
  intros Ha Hb. unfold by_timestamp.
  destruct (isFinite_Fin _ Ha) as [x ->], (isFinite_Fin _ Hb) as [y ->].
  cbn [sub]. unfold of_Z.
  destruct (lt (Fin y) (Fin x)) eqn:E.
  - apply lt_Fin in E. apply gt_Fin. unfold inject_Z. lra.
  - apply gt_Fin_false. apply lt_Fin_false in E.
    unfold inject_Z. lra.
Qed.

Lemma ts_le_trans (a b c : Sample) : ts_le a b -> ts_le b c -> ts_le a c.
Proof.
  unfold ts_le. destruct (timestamp a), (timestamp b), (timestamp c);
    try discriminate; try reflexivity.
  rewrite !le_Fin. apply Qle_trans.
Qed.

Lemma not_lt_ts_le (a b : Sample) :
  isFinite (timestamp a) = true -> isFinite (timestamp b) = true ->
  lt (timestamp b) (timestamp a) = false -> ts_le a b.
Proof.
  intros Ha Hb. unfold ts_le.
  destruct (isFinite_Fin _ Ha) as [x ->], (isFinite_Fin _ Hb) as [y ->].
  intros H. apply le_Fin. apply lt_Fin_false in H. exact H.
Qed.

Lemma lt_ts_le (a b : Sample) : ts_lt a b -> ts_le a b.
Proof.
  unfold ts_lt, ts_le, lt, le. destruct (compare _ _) as [[]|]; congruence.
Qed.

Lemma insert_sorted (x : Sample) (l : list Sample) :
  Forall finite_sample (x :: l) ->
  StronglySorted ts_le l -> StronglySorted ts_le (insert by_timestamp x l).
Proof.
  intros Hfin Hs. induction Hs as [|y l Hs IH Hy]; simpl.
  - constructor; constructor.
  - inversion Hfin as [|? ? Hx Hfl]; subst.
    inversion Hfl as [|? ? Hyf Hl]; subst.
    rewrite (by_timestamp_gt x y (proj1 Hx) (proj1 Hyf)).
    destruct (lt (timestamp y) (timestamp x)) eqn:E.
    + constructor.
      * apply IH. constructor; assumption.
      * eapply Permutation_Forall; [apply insert_perm|].
        constructor; [apply lt_ts_le; exact E | exact Hy].
    + assert (Hxy : ts_le x y)
        by (apply not_lt_ts_le; [apply Hx | apply Hyf | exact E]).
      constructor; [constructor; assumption|].
      constructor; [exact Hxy|].
      eapply Forall_impl; [|exact Hy].
      intros z Hz. eapply ts_le_trans; eassumption.
Qed.

Lemma sort_sorted (l : list Sample) :
  Forall finite_sample l -> StronglySorted ts_le (sort by_timestamp l).
Proof.
  induction 1 as [|x l Hx Hl IH]; simpl; [constructor|].
  apply insert_sorted; [|exact IH].
  constructor; [exact Hx | apply sort_Forall; exact Hl].
Qed.

(** The sort is stable: the samples at one timestamp keep their order. *)
Lemma same_timestamp_not_lt (a b : Sample) (t : num) :
  lt (timestamp b) (timestamp a) = true ->
  strict_eq (timestamp a) t = true -> strict_eq (timestamp b) t = true ->
  False.
Proof.
  destruct (timestamp a) as [| | |x], (timestamp b) as [| | |y], t as [| | |z];
    try discriminate.
  rewrite lt_Fin, !strict_eq_Fin. intros. lra.
Qed.

Lemma at_timestamp_insert (t : num) (x : Sample) (l : list Sample) :
  Forall finite_sample (x :: l) ->
  at_timestamp t (insert by_timestamp x l) = at_timestamp t (x :: l).
Proof.
  intros Hfin. inversion Hfin as [|? ? Hx Hl]; subst. clear Hfin.
  induction Hl as [|y l Hy Hl IH]; [reflexivity|].
  cbn [insert]. rewrite (by_timestamp_gt x y (proj1 Hx) (proj1 Hy)).
  destruct (lt (timestamp y) (timestamp x)) eqn:E; [|reflexivity].
  unfold at_timestamp in *. cbn [filter] in *. rewrite IH.
  destruct (strict_eq (timestamp x) t) eqn:Ex,
           (strict_eq (timestamp y) t) eqn:Ey; try reflexivity.
  destruct (same_timestamp_not_lt x y t E Ex Ey).
Qed.

Lemma at_timestamp_sort (t : num) (l : list Sample) :
  Forall finite_sample l ->
  at_timestamp t (sort by_timestamp l) = at_timestamp t l.
Proof.
  induction 1 as [|x l Hx Hl IH]; [reflexivity|].
  cbn [sort]. rewrite at_timestamp_insert.
  - unfold at_timestamp in *. cbn [filter]. rewrite IH. reflexivity.
  - constructor; [exact Hx | apply sort_Forall; exact Hl].
Qed.

(** The second loop of [normalizePoints] is [dedup]. *)
Lemma last_of_snoc (l : list Sample) (x : Sample) : last_of (l ++ [x]) = Some x.
Proof.
  unfold last_of. destruct (l ++ [x]) eqn:E.
  - destruct l; discriminate E.
  - rewrite <- E. f_equal. apply last_last.
Qed.

Lemma last_of_cons (x : Sample) (l : list Sample) :
  l <> [] -> last_of (x :: l) = last_of l.
Proof.
  destruct l as [|y l]; [congruence|]. intros _.
  unfold last_of. f_equal. cbn [last].
  destruct l as [|z l]; [reflexivity|].
  revert y z. induction l as [|w l IH]; intros y z; [reflexivity|].
  cbn [last] in *. apply (IH y w).
Qed.

Lemma dedup_cons_cons (x y : Sample) (l : list Sample) :
  dedup (x :: y :: l)
  = if strict_eq (timestamp x) (timestamp y)
    then dedup (y :: l)
    else x :: dedup (y :: l).
Proof. reflexivity. Qed.

Lemma fold_push_deduped (l acc : list Sample) (x : Sample) :
  fold_left push_deduped l (acc ++ [x]) = acc ++ dedup (x :: l).
Proof.
  revert acc x. induction l as [|y l IH]; intros acc x; [reflexivity|].
  cbn [fold_left]. unfold push_deduped at 2.
  rewrite last_of_snoc, dedup_cons_cons.
  destruct (strict_eq (timestamp x) (timestamp y)).
  - rewrite removelast_last. apply IH.
  - rewrite IH, <- app_assoc. reflexivity.
Qed.

Lemma dedup_loop (l : list Sample) : fold_left push_deduped l [] = dedup l.
Proof.
  destruct l as [|x l]; [reflexivity|].
  exact (fold_push_deduped l [] x).
Qed.

Lemma dedup_In (z : Sample) (l : list Sample) : In z (dedup l) -> In z l.
Proof.
  induction l as [|x l IH]; [trivial|].
  destruct l as [|y l]; [trivial|].
  rewrite dedup_cons_cons.
  destruct (strict_eq (timestamp x) (timestamp y)).
  - intros H. right. apply IH, H.
  - intros [H|H]; [left; exact H | right; apply IH, H].
Qed.

(** In a sorted list, an element whose successor has another timestamp
    is strictly below everything after it. *)
Lemma below_the_rest (x y : Sample) (l : list Sample) :
  Forall finite_sample (x :: y :: l) ->
  StronglySorted ts_le (x :: y :: l) ->
  strict_eq (timestamp x) (timestamp y) = false ->
  Forall (ts_lt x) (y :: l).
Proof.
  intros Hfin Hs Hne.
  inversion Hfin as [|? ? [Hx _] Hfin']; subst.
  inversion Hfin' as [|? ? [Hy _] _]; subst.
  inversion Hs as [|? ? Hs' Hxl]; subst.
  inversion Hxl as [|? ? Hxy _]; subst.
  inversion Hs' as [|? ? _ Hyl]; subst.
  assert (Hlt : ts_lt x y).
  { unfold ts_le, ts_lt in *.
    destruct (isFinite_Fin _ Hx) as [qx Ex], (isFinite_Fin _ Hy) as [qy Ey].
    rewrite Ex, Ey in *. apply le_Fin in Hxy. apply lt_Fin.
    assert (~ (qx == qy)%Q)
      by (intros H; apply strict_eq_Fin in H; congruence).
    lra. }
  constructor; [exact Hlt|].
  eapply Forall_impl; [|exact Hyl].
  intros z Hyz. unfold ts_le, ts_lt in *.
  destruct (timestamp x), (timestamp y), (timestamp z);
    try discriminate; try reflexivity.
  apply lt_Fin in Hlt. apply le_Fin in Hyz. apply lt_Fin. lra.
Qed.

Lemma dedup_strict (l : list Sample) :
  Forall finite_sample l -> StronglySorted ts_le l ->
  StronglySorted ts_lt (dedup l).
Proof.
  intros Hfin Hs. induction Hs as [|x l Hs IH Hx]; [constructor|].
  inversion Hfin as [|? ? Hxf Hl]; subst.
  destruct l as [|y l]; [constructor; constructor|].
  rewrite dedup_cons_cons.
  destruct (strict_eq (timestamp x) (timestamp y)) eqn:E; [apply IH, Hl|].
  constructor; [apply IH, Hl|].
  pose proof (below_the_rest x y l Hfin (SSorted_cons x Hs Hx) E) as Hbelow.
  rewrite Forall_forall in *. intros z Hz. apply Hbelow, dedup_In, Hz.
Qed.

Lemma filter_none (A : Type) (f : A -> bool) (l : list A) :
  (forall z, In z l -> f z = false) -> filter f l = [].
Proof.
  induction l as [|x l IH]; intros H; [reflexivity|].
  cbn [filter]. rewrite (H x (or_introl eq_refl)).
  apply IH. intros z Hz. apply H. right. exact Hz.
Qed.

Lemma strict_eq_trans (a b t : num) :
  strict_eq a b = true -> strict_eq a t = true -> strict_eq b t = true.
Proof.
  destruct a as [| | |x], b as [| | |y], t as [| | |z];
    try discriminate; try reflexivity.
  rewrite !strict_eq_Fin. intros. lra.
Qed.

Lemma at_timestamp_cons (t : num) (x : Sample) (l : list Sample) :
  at_timestamp t (x :: l)
  = if strict_eq (timestamp x) t then x :: at_timestamp t l
    else at_timestamp t l.
Proof. reflexivity. Qed.

(** Of the samples at one timestamp, [dedup] keeps the last. *)
Lemma at_timestamp_dedup (t : num) (l : list Sample) :
  Forall finite_sample l -> StronglySorted ts_le l ->
  at_timestamp t (dedup l) = last_only (at_timestamp t l).
Proof.
  intros Hfin Hs. induction Hs as [|x l Hs IH Hx]; [reflexivity|].
  inversion Hfin as [|? ? Hxf Hl]; subst.
  destruct l as [|y l].
  { unfold at_timestamp, last_only. cbn.
    destruct (strict_eq (timestamp x) t); reflexivity. }
  rewrite dedup_cons_cons. specialize (IH Hl).
  destruct (strict_eq (timestamp x) (timestamp y)) eqn:E.
  - rewrite IH, (at_timestamp_cons t x (y :: l)).
    destruct (strict_eq (timestamp x) t) eqn:Ex; [|reflexivity].
    rewrite at_timestamp_cons, (strict_eq_trans _ _ _ E Ex).
    unfold last_only. rewrite (last_of_cons x) by discriminate. reflexivity.
  - rewrite (at_timestamp_cons t x (y :: l)), at_timestamp_cons.
    destruct (strict_eq (timestamp x) t) eqn:Ex; [|exact IH].
    rewrite IH.
    pose proof (below_the_rest x y l Hfin (SSorted_cons x Hs Hx) E) as Hbelow.
    assert (Hnone : at_timestamp t (y :: l) = []).
    { apply filter_none. intros z Hz.
      destruct (strict_eq (timestamp z) t) eqn:Ez; [|reflexivity].
      exfalso. apply (same_timestamp_not_lt z x t); trivial.
      rewrite Forall_forall in Hbelow. apply Hbelow, Hz. }
    rewrite Hnone. reflexivity.
Qed.

(** ** What the normalisers produce *)

Section NormaliserFacts.
Variable Date_parse : string -> option Z.

Lemma normalizePoint_body_finite (self : value -> option Sample)
  (point : value) (s : Sample) :
  (forall p s', self p = Some s' -> finite_sample s') ->
  normalizePoint_body Date_parse self point = Some s -> finite_sample s.
Proof.
  intros Hself. unfold normalizePoint_body.
  destruct (negb (truthy point)); [discriminate|].
  destruct point; try discriminate;
    repeat match goal with
      | |- context [if ?b then _ else _] => destruct b eqn:?
      end;
    try discriminate;
    try (intros H; injection H as <-;
         match goal with
         | H : (_ && _)%bool = true |- _ => apply andb_prop in H; exact H
         end);
    apply Hself.
Qed.

Lemma normalizePoint_finite (point : value) (s : Sample) :
  normalizePoint Date_parse point = Some s -> finite_sample s.
Proof.
  unfold normalizePoint. apply normalizePoint_body_finite.
  intros p s'. apply normalizePoint_body_finite. discriminate.
Qed.

Lemma collect_finite (items : list value) :
  Forall finite_sample (collect Date_parse items).
Proof.
  unfold collect. induction items as [|p items IH]; [constructor|].
  cbn [flat_map]. apply Forall_app. split; [|exact IH].
  destruct (normalizePoint Date_parse p) eqn:E; constructor; [|constructor].
  eapply normalizePoint_finite, E.
Qed.

Lemma fold_push_normalized (items : list value) (acc : list Sample) :
  fold_left (push_normalized Date_parse) items acc
  = acc ++ collect Date_parse items.
Proof.
  revert acc. induction items as [|p items IH]; intros acc.
  - cbn. rewrite app_nil_r. reflexivity.
  - cbn [fold_left]. rewrite IH. unfold push_normalized, collect.
    cbn [flat_map]. destruct (normalizePoint Date_parse p).
    + rewrite <- app_assoc. reflexivity.
    + reflexivity.
Qed.

(** [normalizePoints] on an array: collect, sort, deduplicate. *)
Lemma normalizePoints_array (items : list value) :
  normalizePoints Date_parse (VArr items)
  = dedup (sort by_timestamp (collect Date_parse items)).
Proof.
  unfold normalizePoints. rewrite dedup_loop, fold_push_normalized.
  reflexivity.
Qed.

Lemma normalizePoints_finite (points : value) :
  Forall finite_sample (normalizePoints Date_parse points).
Proof.
  destruct points; try constructor.
  rewrite normalizePoints_array.
  apply Forall_forall. intros z Hz. apply dedup_In, sort_In in Hz.
  pose proof (collect_finite items) as H. rewrite Forall_forall in H.
  apply H, Hz.
Qed.

Lemma normalizePoints_strict (points : value) :
  StronglySorted ts_lt (normalizePoints Date_parse points).
Proof.
  destruct points; try constructor.
  rewrite normalizePoints_array.
  apply dedup_strict.
  - apply sort_Forall, collect_finite.
  - apply sort_sorted, collect_finite.
Qed.

End NormaliserFacts.

Lemma StronglySorted_neighbours (A : Type) (R : A -> A -> Prop) (l : list A)
  (i : nat) (a b : A) :
  StronglySorted R l ->
  nth_error l i = Some a -> nth_error l (S i) = Some b -> R a b.
Proof.
  intros Hs. revert i. induction Hs as [|x l Hs IH Hx]; intros i.
  - destruct i; discriminate.
  - destruct i as [|i]; cbn [nth_error].
    + intros Ha Hb. injection Ha as <-.
      rewrite Forall_forall in Hx. apply Hx.
      destruct l; [discriminate|]. injection Hb as <-. left. reflexivity.
    + apply IH.
Qed.

Lemma strict_eq_refl (a : num) : isFinite a = true -> strict_eq a a = true.
Proof.
  intros H. destruct (isFinite_Fin _ H) as [q ->].
  apply strict_eq_Fin. reflexivity.
Qed.

Lemma collect_app (Date_parse : string -> option Z) (l1 l2 : list value) :
  collect Date_parse (l1 ++ l2) = collect Date_parse l1 ++ collect Date_parse l2.
Proof. apply flat_map_app. Qed.

Lemma collect_In (Date_parse : string -> option Z) (items : list value)
  (s : Sample) :
  In s (collect Date_parse items) <->
  exists r, In r items /\ normalizePoint Date_parse r = Some s.
Proof.
  unfold collect. rewrite in_flat_map. split; intros [r [Hr H]]; exists r.
  - split; [exact Hr|].
    destruct (normalizePoint Date_parse r); [|destruct H].
    destruct H as [<-|[]]. reflexivity.
  - split; [exact Hr|]. rewrite H. left. reflexivity.
Qed.

(** The samples the series holds at the timestamp of a record that no
    later record repeats: that record's sample, alone. *)
Lemma at_timestamp_normalizePoints (Date_parse : string -> option Z)
  (before after : list value) (b : value) (sb : Sample) :
  normalizePoint Date_parse b = Some sb ->
  (forall r sr, In r after -> normalizePoint Date_parse r = Some sr ->
                strict_eq (timestamp sr) (timestamp sb) = false) ->
  at_timestamp (timestamp sb)
    (normalizePoints Date_parse (VArr (before ++ b :: after))) = [sb].
Proof.
  intros Hb Hafter.
  rewrite normalizePoints_array, at_timestamp_dedup, at_timestamp_sort;
    try apply collect_finite;
    [| apply sort_Forall, collect_finite | apply sort_sorted, collect_finite].
  change (b :: after) with ([b] ++ after).
  rewrite !collect_app. unfold at_timestamp. rewrite !filter_app.
  replace (filter _ (collect Date_parse after)) with (@nil Sample).
  - unfold collect at 2. cbn [flat_map]. rewrite Hb. cbn [app filter].
    rewrite strict_eq_refl by (apply (normalizePoint_finite _ _ _ Hb)).
    rewrite app_nil_r. unfold last_only. rewrite last_of_snoc. reflexivity.
  - symmetry. apply filter_none. intros z Hz.
    apply collect_In in Hz as [r [Hr Hz]]. exact (Hafter r z Hr Hz).
Qed.

Lemma StronglySorted_pairs (A : Type) (R : A -> A -> Prop) (l : list A)
  (i j : nat) (a b : A) :
  StronglySorted R l -> i < j ->
  nth_error l i = Some a -> nth_error l j = Some b -> R a b.
Proof.
  intros Hs. revert i j. induction Hs as [|x l Hs IH Hx]; intros i j Hij.
  - destruct i; discriminate.
  - destruct j as [|j]; [lia|]. destruct i as [|i]; cbn [nth_error].
    + intros Ha Hb. injection Ha as <-.
      rewrite Forall_forall in Hx. apply Hx. eapply nth_error_In, Hb.
    + apply IH. lia.
Qed.

Lemma strict_eq_sym (a b : num) : strict_eq a b = strict_eq b a.
Proof.
  destruct a as [| | |x], b as [| | |y]; try reflexivity.
  unfold strict_eq. cbn [compare]. rewrite <- (Qcompare_antisym x y).
  destruct (x ?= y)%Q; reflexivity.
Qed.

(** C4: the series [normalizePoints] returns is strictly ascending by
    timestamp, neighbour by neighbour, so no two of its samples share a
    timestamp; and of the records that coerce to one timestamp the
    series keeps the sample of the one that comes last in the input, and
    no other sample at that timestamp. *)
Theorem normalizePoints_ascending_last_wins (Date_parse : string -> option Z)
  (points : value) :
  ascending (normalizePoints Date_parse points)
  /\ distinct_timestamps (normalizePoints Date_parse points)
  /\ forall (before after : list value) (b : value) (sb : Sample),
       points = VArr (before ++ b :: after) ->
       normalizePoint Date_parse b = Some sb ->
       (forall r sr, In r after -> normalizePoint Date_parse r = Some sr ->
                     strict_eq (timestamp sr) (timestamp sb) = false) ->
       In sb (normalizePoints Date_parse points)
       /\ forall s, In s (normalizePoints Date_parse points) ->
                    strict_eq (timestamp s) (timestamp sb) = true -> s = sb.
Proof.
  pose proof (normalizePoints_strict Date_parse points) as Hstrict.
  split; [|split].
  - intros i a b.
    apply (StronglySorted_neighbours Sample ts_lt _ i), Hstrict.
  - intros i j a b Hij Ha Hb.
    destruct (Nat.lt_total i j) as [Hlt|[->|Hgt]]; [|congruence|].
    + apply lt_not_strict_eq.
      exact (StronglySorted_pairs Sample ts_lt _ i j a b Hstrict Hlt Ha Hb).
    + rewrite strict_eq_sym. apply lt_not_strict_eq.
      exact (StronglySorted_pairs Sample ts_lt _ j i b a Hstrict Hgt Hb Ha).
  - intros before after b sb -> Hb Hafter.
    pose proof (@at_timestamp_normalizePoints Date_parse before after b sb
                  Hb Hafter) as H.
    unfold at_timestamp in H. split.
    + assert (Hin : In sb [sb]) by (left; reflexivity).
      rewrite <- H in Hin. apply filter_In in Hin. apply Hin.
    + intros s Hs Hts.
      assert (Hin : In s [sb])
        by (rewrite <- H; apply filter_In; split; assumption).
      destruct Hin as [<-|[]]. reflexivity.
Qed.

(** Two records at timestamp 5 s with prices 1 and 2: the series is the
    second record's sample alone. *)
Lemma normalizePoints_last_wins_witness :
  let a := VArr [VNum (Fin 5%Q); VNum (Fin 1%Q)] in
  let b := VArr [VNum (Fin 5%Q); VNum (Fin 2%Q)] in
  let sb := {| timestamp := Fin 5000%Q; price_usd := Fin 2%Q |} in
  normalizePoints Date_parse_none (VArr [a; b]) = [sb]
  /\ In sb (normalizePoints Date_parse_none (VArr [a; b]))
  /\ forall s, In s (normalizePoints Date_parse_none (VArr [a; b])) ->
               strict_eq (timestamp s) (timestamp sb) = true -> s = sb.
Proof.
  intros a b sb. split; [vm_compute; reflexivity|].
  apply (proj2 (proj2 (normalizePoints_ascending_last_wins Date_parse_none
                         (VArr [a; b]))) [a] [] b sb).
  - reflexivity.
  - vm_compute. reflexivity.
  - intros r sr [].
Defined.

(** ** The downsampler *)

Lemma ceil_div_covers (n limit : nat) : 0 < limit -> n <= ceil_div n limit * limit.
Proof.
  intros H. unfold ceil_div.
  pose proof (Nat.mul_succ_div_gt (n + limit - 1) limit) as G.
  specialize (G ltac:(lia)).
  set (q := (n + limit - 1) / limit) in *. clearbody q.
  rewrite Nat.mul_succ_r in G. rewrite (Nat.mul_comm q limit). lia.
Qed.

(** [ceil_div] is the ceiling of the quotient. *)
Lemma ceil_div_least (n limit : nat) :
  0 < limit -> 0 < n -> (ceil_div n limit - 1) * limit < n.
Proof.
  intros Hlimit Hn. unfold ceil_div.
  pose proof (Nat.Div0.mul_div_le (n + limit - 1) limit) as G.
  set (q := (n + limit - 1) / limit) in *. clearbody q.
  destruct q as [|q]; [cbn; lia|].
  rewrite Nat.sub_succ, Nat.sub_0_r. rewrite Nat.mul_succ_r in G.
  rewrite (Nat.mul_comm q limit). lia.
Qed.

(** The fuel of the sampling loop is enough: with a positive stride the
    indices visited from [i] are exactly [i + j * step] below [n]. *)
Lemma stride_indices_complete (fuel i step n k : nat) :
  0 < step -> n - i <= fuel ->
  In k (stride_indices fuel i step n) <->
  k < n /\ exists j, k = i + j * step.
Proof.
  intros Hstep. revert i. induction fuel as [|fuel IH]; intros i Hfuel;
    cbn [stride_indices].
  - split; [intros []|]. intros [Hk [j ->]]. lia.
  - destruct (Nat.ltb_spec i n) as [Hi|Hi].
    + cbn [In]. rewrite (IH (i + step)) by lia. split.
      * intros [<-|[Hk [j ->]]].
        -- split; [exact Hi | exists 0; lia].
        -- split; [exact Hk | exists (S j); lia].
      * intros [Hk [j ->]]. destruct j as [|j]; [left; lia|].
        right. split; [exact Hk | exists j; lia].
    + split; [intros []|]. intros [Hk [j ->]]. lia.
Qed.

Lemma stride_indices_length (fuel i step n : nat) :
  0 < step -> length (stride_indices fuel i step n) * step < (n - i) + step.
Proof.
  intros Hstep. revert i.
  induction fuel as [|fuel IH]; intros i; cbn [stride_indices].
  - cbn. lia.
  - destruct (Nat.ltb_spec i n); cbn [length]; [|lia].
    specialize (IH (i + step)). rewrite Nat.mul_succ_l.
    destruct (length (stride_indices fuel (i + step) step n)); [lia|].
    rewrite Nat.mul_succ_l in *. lia.
Qed.

Lemma stride_indices_below (fuel i step n : nat) :
  Forall (fun k => k < n) (stride_indices fuel i step n).
Proof.
  revert i. induction fuel as [|fuel IH]; intros i; cbn [stride_indices];
    [constructor|].
  destruct (Nat.ltb_spec i n); constructor; [assumption | apply IH].
Qed.

Lemma downsample_short (points : list Sample) (limit : nat) :
  length points <= limit -> downsample points limit = points.
Proof.
  intros H. unfold downsample.
  destruct (Nat.leb_spec (length points) limit); [reflexivity | lia].
Qed.

Lemma downsample_long (first : Sample) (rest : list Sample) (limit : nat) :
  limit < length (first :: rest) ->
  downsample (first :: rest) limit
  = sort by_timestamp
      (ensure (max_point (first :: rest) first)
         (ensure (min_point (first :: rest) first)
            (strided (first :: rest) limit first))).
Proof.
  intros H. unfold downsample.
  destruct (Nat.leb_spec (length (first :: rest)) limit); [lia | reflexivity].
Qed.

Lemma strided_length (points : list Sample) (limit : nat) (first : Sample) :
  0 < limit -> limit < length points ->
  length (strided points limit first) <= limit + 1.
Proof.
  intros Hlimit Hlong. unfold strided.
  destruct (Nat.eqb_spec limit 0) as [|_]; [lia|].
  set (n := length points) in *. set (step := ceil_div n limit).
  pose proof (ceil_div_covers n limit Hlimit) as Hcover. fold step in Hcover.
  assert (Hstep : 0 < step) by (destruct step; [lia | lia]).
  pose proof (stride_indices_length n 0 step n Hstep) as Hlen.
  assert (Hpicked : length (stride_indices n 0 step n) <= limit) by nia.
  destruct (_ =? _); rewrite ?length_app, length_map; cbn; lia.
Qed.

Lemma ensure_length (pt : Sample) (sampled : list Sample) :
  length (ensure pt sampled) <= S (length sampled).
Proof.
  unfold ensure. destruct (existsb _ _); [lia|].
  rewrite length_app. cbn. lia.
Qed.

Lemma ensure_incl (pt x : Sample) (sampled : list Sample) :
  In x sampled -> In x (ensure pt sampled).
Proof.
  unfold ensure. destruct (existsb _ _); [trivial|].
  intros H. apply in_or_app. left. exact H.
Qed.

(** [ensure] adds the point only when no sampled item has its timestamp
    and price, and then at the end. *)
Lemma ensure_cases (pt : Sample) (sampled : list Sample) :
  (ensure pt sampled = sampled
   /\ exists item, In item sampled
        /\ strict_eq (timestamp item) (timestamp pt) = true
        /\ strict_eq (price_usd item) (price_usd pt) = true)
  \/ (ensure pt sampled = sampled ++ [pt]
      /\ forall item, In item sampled ->
           strict_eq (timestamp item) (timestamp pt)
           && strict_eq (price_usd item) (price_usd pt) = false).
Proof.
  unfold ensure. destruct (existsb _ sampled) eqn:E.
  - left. split; [reflexivity|].
    apply existsb_exists in E as [item [Hin H]].
    apply andb_prop in H. exists item. tauto.
  - right. split; [reflexivity|]. intros item Hin.
    destruct (_ && _) eqn:H; [|reflexivity].
    assert (existsb
              (fun item => strict_eq (timestamp item) (timestamp pt)
                           && strict_eq (price_usd item) (price_usd pt))
              sampled = true)
      by (apply existsb_exists; exists item; split; assumption).
    congruence.
Qed.

Lemma downsample_length (points : list Sample) (limit : nat) :
  0 < limit -> limit < length points ->
  length (downsample points limit) <= limit + 3.
Proof.
  intros Hlimit Hlong. destruct points as [|first rest]; [cbn in Hlong; lia|].
  rewrite (downsample_long first rest limit Hlong), sort_length.
  pose proof (strided_length (first :: rest) limit first Hlimit Hlong) as H0.
  pose proof (ensure_length (min_point (first :: rest) first)
                (strided (first :: rest) limit first)) as H1.
  pose proof (ensure_length (max_point (first :: rest) first)
                (ensure (min_point (first :: rest) first)
                   (strided (first :: rest) limit first))) as H2.
  lia.
Qed.

Lemma nth_last_index (A : Type) (l : list A) (d : A) :
  nth (length l - 1) l d = last l d.
Proof.
  induction l as [|x l IH]; [reflexivity|].
  destruct l as [|y l]; [reflexivity|].
  cbn [length] in *. rewrite Nat.sub_succ, Nat.sub_0_r in *.
  exact IH.
Qed.

Lemma last_In (A : Type) (l : list A) (d : A) : l <> [] -> In (last l d) l.
Proof.
  intros H. rewrite (app_removelast_last d H) at 2.
  apply in_or_app. right. left. reflexivity.
Qed.

Lemma strided_incl (points : list Sample) (limit : nat) (first z : Sample) :
  In z (strided points limit first) -> In z points.
Proof.
  destruct points as [|x l]; [intros []|].
  unfold strided. set (points := x :: l). set (n := length points).
  set (step := if limit =? 0 then n else ceil_div n limit).
  assert (Hmap : forall z, In z (map (fun i => nth i points first)
                                   (stride_indices n 0 step n)) ->
                          In z points).
  { intros w Hw. apply in_map_iff in Hw as [i [<- Hi]].
    apply nth_In.
    pose proof (stride_indices_below n 0 step n) as Hb.
    rewrite Forall_forall in Hb. apply Hb, Hi. }
  destruct (last (stride_indices n 0 step n) 0 =? n - 1); [apply Hmap|].
  intros H. apply in_app_or in H as [H|[<-|[]]]; [apply Hmap, H|].
  unfold n. rewrite nth_last_index. apply last_In. discriminate.
Qed.

Lemma strided_first (first : Sample) (rest : list Sample) (limit : nat) :
  In first (strided (first :: rest) limit first).
Proof.
  unfold strided. set (points := first :: rest). set (n := length points).
  set (step := if limit =? 0 then n else ceil_div n limit).
  assert (H : In first (map (fun i => nth i points first)
                          (stride_indices n 0 step n))).
  { apply in_map_iff. exists 0. split; [reflexivity|]. left. reflexivity. }
  destruct (last (stride_indices n 0 step n) 0 =? n - 1); [exact H|].
  apply in_or_app. left. exact H.
Qed.

Lemma strided_last (first : Sample) (rest : list Sample) (limit : nat) :
  In (last (first :: rest) first) (strided (first :: rest) limit first).
Proof.
  unfold strided. set (points := first :: rest). set (n := length points).
  set (step := if limit =? 0 then n else ceil_div n limit).
  rewrite <- (nth_last_index Sample points first). fold n.
  destruct (Nat.eqb_spec (last (stride_indices n 0 step n) 0) (n - 1)) as [E|_].
  - apply in_map_iff. exists (n - 1). split; [reflexivity|].
    rewrite <- E. apply last_In. discriminate.
  - apply in_or_app. right. left. reflexivity.
Qed.

(** The two reductions return a point of the input that no point
    undercuts (resp. exceeds). *)
Lemma min_point_spec (points : list Sample) (first : Sample) :
  Forall finite_sample (first :: points) ->
  let m := min_point points first in
  In m (first :: points)
  /\ le (price_usd m) (price_usd first) = true
  /\ forall p, In p points -> le (price_usd m) (price_usd p) = true.
Proof.
  unfold min_point. revert first.
  induction points as [|x points IH]; intros first Hfin.
  - cbn. inversion Hfin as [|? ? [_ Hf] _]; subst.
    repeat split; [left; reflexivity | apply le_refl, Hf | intros p []].
  - inversion Hfin as [|? ? [Hft Hf] Hrest]; subst.
    inversion Hrest as [|? ? [Hxt Hx] Hpoints]; subst.
    cbn [fold_left].
    destruct (lt (price_usd x) (price_usd first)) eqn:E.
    + destruct (IH x) as [Hin [Hle Hall]];
        [constructor; [split|]; assumption|].
      split; [|split].
      * right. exact Hin.
      * eapply le_trans; [exact Hle | apply lt_le, E].
      * intros p [<-|Hp]; [exact Hle | apply Hall, Hp].
    + destruct (IH first) as [Hin [Hle Hall]];
        [constructor; [split|]; assumption|].
      split; [|split].
      * destruct Hin as [<-|Hin]; [left; reflexivity | right; right; exact Hin].
      * exact Hle.
      * intros p [<-|Hp]; [|apply Hall, Hp].
        apply (le_trans _ (price_usd first));
          [exact Hle | apply not_lt_le; assumption].
Qed.

Lemma max_point_spec (points : list Sample) (first : Sample) :
  Forall finite_sample (first :: points) ->
  let m := max_point points first in
  In m (first :: points)
  /\ ge (price_usd m) (price_usd first) = true
  /\ forall p, In p points -> ge (price_usd m) (price_usd p) = true.
Proof.
  unfold max_point, ge, gt. revert first.
  induction points as [|x points IH]; intros first Hfin.
  - cbn. inversion Hfin as [|? ? [_ Hf] _]; subst.
    repeat split; [left; reflexivity | apply le_refl, Hf | intros p []].
  - inversion Hfin as [|? ? [Hft Hf] Hrest]; subst.
    inversion Hrest as [|? ? [Hxt Hx] Hpoints]; subst.
    cbn [fold_left].
    destruct (lt (price_usd first) (price_usd x)) eqn:E.
    + destruct (IH x) as [Hin [Hle Hall]];
        [constructor; [split|]; assumption|].
      split; [|split].
      * right. exact Hin.
      * eapply le_trans; [apply lt_le, E | exact Hle].
      * intros p [<-|Hp]; [exact Hle | apply Hall, Hp].
    + destruct (IH first) as [Hin [Hle Hall]];
        [constructor; [split|]; assumption|].
      split; [|split].
      * destruct Hin as [<-|Hin]; [left; reflexivity | right; right; exact Hin].
      * exact Hle.
      * intros p [<-|Hp]; [|apply Hall, Hp].
        apply (le_trans _ (price_usd first));
          [apply not_lt_le; assumption | exact Hle].
Qed.

Lemma ensure_In (pt z : Sample) (sampled : list Sample) :
  In z (ensure pt sampled) -> z = pt \/ In z sampled.
Proof.
  unfold ensure. destruct (existsb _ _); [tauto|].
  intros H. apply in_app_or in H as [H|[<-|[]]]; tauto.
Qed.

Lemma strict_eq_le (a b c : num) :
  strict_eq a b = true -> le b c = true -> le a c = true.
Proof.
  destruct a, b, c; try discriminate; try reflexivity.
  rewrite strict_eq_Fin, !le_Fin. intros. lra.
Qed.

Lemma le_strict_eq (a b c : num) :
  strict_eq a b = true -> le c b = true -> le c a = true.
Proof.
  destruct a, b, c; try discriminate; try reflexivity.
  rewrite strict_eq_Fin, !le_Fin. intros. lra.
Qed.

(** C2: for a non-empty series of finite samples and a positive limit,
    the downsampled series contains the first sample, the last sample, a
    sample of the series with its lowest price and one with its highest
    price, and holds at most [limit + 3] samples when the series is
    longer than the limit.  (The extremes are pushed by [ensure], which
    adds a point only when no sampled item has its timestamp and price:
    [ensure_cases].)  Ascending order of the input is not needed. *)
Theorem downsample_keeps_ends_and_extremes (first : Sample)
  (rest : list Sample) (limit : nat) :
  Forall finite_sample (first :: rest) ->
  0 < limit ->
  let series := first :: rest in
  let out := downsample series limit in
  In first out
  /\ In (last series first) out
  /\ (exists m, In m out /\ In m series
        /\ forall p, In p series -> le (price_usd m) (price_usd p) = true)
  /\ (exists m, In m out /\ In m series
        /\ forall p, In p series -> ge (price_usd m) (price_usd p) = true)
  /\ (limit < length series -> length out <= limit + 3).
Proof.
  intros Hfin Hlimit series out.
  assert (Hfin2 : Forall finite_sample (first :: series))
    by (inversion Hfin; constructor; assumption).
  destruct (min_point_spec series first Hfin2) as [Hmin_in [_ Hmin]].
  destruct (max_point_spec series first Hfin2) as [Hmax_in [_ Hmax]].
  assert (Hmin_in' : In (min_point series first) series)
    by (destruct Hmin_in as [<-|H]; [left; reflexivity | exact H]).
  assert (Hmax_in' : In (max_point series first) series)
    by (destruct Hmax_in as [<-|H]; [left; reflexivity | exact H]).
  clear Hmin_in Hmax_in.
  enough (H4 : In first out /\ In (last series first) out
    /\ (exists m, In m out /\ In m series
          /\ forall p, In p series -> le (price_usd m) (price_usd p) = true)
    /\ (exists m, In m out /\ In m series
          /\ forall p, In p series -> ge (price_usd m) (price_usd p) = true)).
  { destruct H4 as (H1 & H2 & H3 & H4). repeat split; try assumption.
    intros H. apply downsample_length; assumption. }
  destruct (Nat.le_gt_cases (length series) limit) as [Hshort|Hlong].
  - unfold out. rewrite (downsample_short series limit Hshort).
    split; [left; reflexivity|].
    split; [apply last_In; discriminate|].
    split; [exists (min_point series first); auto|].
    exists (max_point series first); auto.
  - unfold out, series.
    rewrite (downsample_long first rest limit Hlong). fold series.
    set (base := strided series limit first).
    set (minPt := min_point series first) in *.
    set (maxPt := max_point series first) in *.
    assert (Hbase : forall z, In z base -> In z series)
      by (intros z; apply strided_incl).
    assert (Hup : forall z, In z base ->
              In z (sort by_timestamp (ensure maxPt (ensure minPt base))))
      by (intros z Hz; apply sort_In, ensure_incl, ensure_incl, Hz).
    split; [apply Hup, strided_first|].
    split; [apply Hup, strided_last|].
    split.
    + destruct (ensure_cases minPt base) as [[_ [item [Hin [_ Hp]]]]|[E _]].
      * exists item. split; [apply Hup, Hin|]. split; [apply Hbase, Hin|].
        intros p Hp'. eapply strict_eq_le; [exact Hp | apply Hmin, Hp'].
      * exists minPt. split; [|auto].
        apply sort_In, ensure_incl. rewrite E.
        apply in_or_app. right. left. reflexivity.
    + assert (Hmid : forall z, In z (ensure minPt base) -> In z series).
      { intros z Hz. apply ensure_In in Hz as [->|Hz]; auto. }
      destruct (ensure_cases maxPt (ensure minPt base))
        as [[_ [item [Hin [_ Hp]]]]|[E _]].
      * exists item. split; [apply sort_In, ensure_incl, Hin|].
        split; [apply Hmid, Hin|].
        intros p Hp'. unfold ge. eapply le_strict_eq; [exact Hp|].
        apply Hmax, Hp'.
      * exists maxPt. split; [|auto].
        apply sort_In. rewrite E. apply in_or_app. right. left. reflexivity.
Qed.

(** Five samples and a limit of 1: the stride takes the first, the
    last is pushed, and so are the lowest (at 2) and the highest (at 3):
    four samples, [limit + 3]. *)
Lemma downsample_keeps_ends_and_extremes_witness :
  let sample t p := {| timestamp := of_Z t; price_usd := of_Z p |} in
  let series :=
    [sample 1 5; sample 2 1; sample 3 9; sample 4 5; sample 5 5]%Z in
  let out := downsample series 1 in
  out = [sample 1 5; sample 2 1; sample 3 9; sample 5 5]%Z
  /\ In (sample 1 5)%Z out
  /\ In (sample 5 5)%Z out
  /\ (exists m, In m out /\ In m series
        /\ forall p, In p series -> le (price_usd m) (price_usd p) = true)
  /\ (exists m, In m out /\ In m series
        /\ forall p, In p series -> ge (price_usd m) (price_usd p) = true)
  /\ (1 < length series -> length out <= 1 + 3).
Proof.
  intros sample series out. split; [vm_compute; reflexivity|].
  apply (downsample_keeps_ends_and_extremes (sample 1 5)%Z
           [sample 2 1; sample 3 9; sample 4 5; sample 5 5]%Z 1).
  - repeat constructor.
  - lia.
Defined.

(** C3, as the code has it: for a limit of at least 1, a series longer
    than the limit is reduced to at most [limit + 3] samples, and a
    series no longer than the limit is returned unchanged. *)
Theorem downsample_bound (series : list Sample) (limit : nat) :
  1 <= limit ->
  (limit < length series -> length (downsample series limit) <= limit + 3)
  /\ (length series <= limit -> downsample series limit = series).
Proof.
  intros Hlimit. split.
  - apply downsample_length. lia.
  - apply downsample_short.
Qed.

(** Four samples under a limit of 3 come out as they are; under a limit
    of 1 they come out within [1 + 3]. *)
Lemma downsample_bound_witness :
  let sample t p := {| timestamp := of_Z t; price_usd := of_Z p |} in
  let series := [sample 1 5; sample 2 1; sample 3 5; sample 4 5]%Z in
  length (downsample series 1) <= 1 + 3
  /\ downsample series 4 = series.
Proof.
  intros sample series. split.
  - apply (proj1 (downsample_bound series 1 (le_n 1))). cbn. lia.
  - apply (proj2 (downsample_bound series 4 ltac:(lia))). cbn. lia.
Defined.

(** C3 as stated fails: four samples under a limit of 3 are sampled
    with a stride of 2 (indices 0 and 2), the last is pushed, and so is
    the lowest price at index 1: four samples, above [max(3, 3)]. *)
Lemma downsample_bound_counterexample :
  let sample t p := {| timestamp := of_Z t; price_usd := of_Z p |} in
  let series := [sample 1 5; sample 2 1; sample 3 5; sample 4 5]%Z in
  3 < length series
  /\ downsample series 3 = series
  /\ ~ length (downsample series 3) <= Nat.max 3 3.
Proof.
  intros sample series.
  split; [cbn; lia|]. split; [vm_compute; reflexivity|].
  vm_compute. intros H. repeat apply le_S_n in H. inversion H.
Qed.

(** ** Normalising a series again *)

Lemma Math_round_of_Z (z : Z) : Math_round (of_Z z) = of_Z z.
Proof.
  unfold Math_round, of_Z. do 2 f_equal.
  unfold Qfloor, Qplus, inject_Z. cbn [Qnum Qden].
  rewrite Z.mul_1_l. change (Z.pos (1 * 2)) with 2%Z.
  rewrite Z.add_comm, Z.div_add by discriminate. reflexivity.
Qed.

Lemma normalizeTimestamp_number_integral (n : num) :
  isFinite (normalizeTimestamp_number n) = true ->
  exists z, normalizeTimestamp_number n = of_Z z.
Proof.
  destruct n as [| | |q]; try discriminate. intros _.
  rewrite normalizeTimestamp_number_two_way.
  destruct (gt _ _); cbn [mul Math_round]; eexists; reflexivity.
Qed.

Lemma normalizeTimestamp_integral (Date_parse : string -> option Z) (v : value) :
  isFinite (normalizeTimestamp Date_parse v) = true ->
  exists z, normalizeTimestamp Date_parse v = of_Z z.
Proof.
  destruct v; cbn [normalizeTimestamp]; try discriminate.
  - apply normalizeTimestamp_number_integral.
  - destruct (isFinite (Number_of_string s));
      [apply normalizeTimestamp_number_integral|].
    destruct (Date_parse s); cbn; [eauto | discriminate].
  - destruct t; cbn; [eauto | discriminate].
Qed.

Lemma normalizePoint_body_integral (Date_parse : string -> option Z)
  (self : value -> option Sample) (point : value) (s : Sample) :
  (forall p s', self p = Some s' -> exists z, timestamp s' = of_Z z) ->
  normalizePoint_body Date_parse self point = Some s ->
  exists z, timestamp s = of_Z z.
Proof.
  intros Hself. unfold normalizePoint_body.
  destruct (negb (truthy point)); [discriminate|].
  destruct point; try discriminate;
    repeat match goal with
      | |- context [if ?b then _ else _] => destruct b eqn:?
      end;
    try discriminate;
    try (intros H; injection H as <-; cbn [timestamp];
         apply normalizeTimestamp_integral;
         match goal with
         | H : (_ && _)%bool = true |- _ => apply andb_prop in H; apply H
         end);
    apply Hself.
Qed.

Lemma normalizePoint_integral (Date_parse : string -> option Z)
  (point : value) (s : Sample) :
  normalizePoint Date_parse point = Some s -> exists z, timestamp s = of_Z z.
Proof.
  unfold normalizePoint. apply normalizePoint_body_integral.
  intros p s'. apply normalizePoint_body_integral. discriminate.
Qed.

Lemma normalizePoints_integral (Date_parse : string -> option Z)
  (points : value) (s : Sample) :
  In s (normalizePoints Date_parse points) -> exists z, timestamp s = of_Z z.
Proof.
  destruct points; try (intros []).
  rewrite normalizePoints_array. intros H.
  apply dedup_In, sort_In, collect_In in H as [r [_ H]].
  eapply normalizePoint_integral, H.
Qed.

Lemma sort_sorted_id (l : list Sample) :
  Forall finite_sample l -> StronglySorted ts_le l -> sort by_timestamp l = l.
Proof.
  intros Hfin Hs. induction Hs as [|x l Hs IH Hx]; [reflexivity|].
  inversion Hfin as [|? ? Hxf Hl]; subst.
  cbn [sort]. rewrite (IH Hl).
  destruct l as [|y l]; [reflexivity|].
  inversion Hl as [|? ? Hyf _]; subst.
  inversion Hx as [|? ? Hxy _]; subst.
  cbn [insert]. rewrite (by_timestamp_gt x y (proj1 Hxf) (proj1 Hyf)).
  destruct (lt (timestamp y) (timestamp x)) eqn:E; [|reflexivity].
  exfalso. unfold ts_le in Hxy.
  destruct (isFinite_Fin _ (proj1 Hxf)) as [qx Ex].
  destruct (isFinite_Fin _ (proj1 Hyf)) as [qy Ey].
  rewrite Ex, Ey in *. apply le_Fin in Hxy. apply lt_Fin in E. lra.
Qed.

Lemma dedup_strict_id (l : list Sample) : StronglySorted ts_lt l -> dedup l = l.
Proof.
  induction 1 as [|x l Hs IH Hx]; [reflexivity|].
  destruct l as [|y l]; [reflexivity|].
  change (dedup (x :: y :: l))
    with (if strict_eq (timestamp x) (timestamp y)
          then dedup (y :: l) else x :: dedup (y :: l)).
  inversion Hx as [|? ? Hxy _]; subst.
  rewrite (lt_not_strict_eq _ _ Hxy), IH. reflexivity.
Qed.

Lemma StronglySorted_weaken (l : list Sample) :
  StronglySorted ts_lt l -> StronglySorted ts_le l.
Proof.
  induction 1 as [|x l Hs IH Hx]; constructor; [exact IH|].
  eapply Forall_impl; [|exact Hx]. intros z. apply lt_ts_le.
Qed.

Lemma aliased_timestamp_sample (Date_parse : string -> option Z) (s : Sample) :
  aliased_timestamp Date_parse (sample_value s)
  = normalizeTimestamp_number (timestamp s).
Proof. reflexivity. Qed.

Lemma aliased_price_sample (s : Sample) :
  aliased_price (sample_value s) = normalizePrice (VNum (price_usd s)).
Proof. reflexivity. Qed.

Lemma normalizePoint_sample_value (Date_parse : string -> option Z)
  (s : Sample) :
  finite_sample s ->
  normalizePoint Date_parse (sample_value s) = Some (renormalized s).
Proof.
  intros [Ht Hp].
  assert (Ep : normalizePrice (VNum (price_usd s)) = price_usd s).
  { cbn [normalizePrice]. rewrite Hp. reflexivity. }
  assert (Hf : isFinite (normalizeTimestamp_number (timestamp s)) = true).
  { destruct (isFinite_Fin _ Ht) as [q ->].
    rewrite normalizeTimestamp_number_two_way.
    destruct (gt _ _); reflexivity. }
  unfold normalizePoint, normalizePoint_body.
  change (negb (truthy (sample_value s))) with false. cbv iota.
  change (match sample_value s with
          | VObj _ | VDate _ => ?a
          | VArr items => _
          | _ => _ end) with a.
  rewrite aliased_timestamp_sample, aliased_price_sample, Ep, Hf, Hp.
  reflexivity.
Qed.

Lemma normalizeTimestamp_number_kept (z : Z) :
  (z = 0 \/ 10 ^ 10 < z)%Z -> normalizeTimestamp_number (of_Z z) = of_Z z.
Proof.
  intros [->|Hz]; [vm_compute; reflexivity|].
  unfold of_Z. rewrite normalizeTimestamp_number_two_way.
  assert (H : gt (Fin (inject_Z z)) (Fin 1e10%Q) = true).
  { apply gt_Fin. change 1e10%Q with (inject_Z (10 ^ 10)).
    rewrite <- Zlt_Qlt. exact Hz. }
  rewrite H. apply Math_round_of_Z.
Qed.

Lemma normalizeTimestamp_number_scaled (z : Z) :
  (z <= 10 ^ 10)%Z -> normalizeTimestamp_number (of_Z z) = of_Z (z * 1000).
Proof.
  intros Hz. unfold of_Z. rewrite normalizeTimestamp_number_two_way.
  assert (H : gt (Fin (inject_Z z)) (Fin 1e10%Q) = false).
  { apply gt_Fin_false. change 1e10%Q with (inject_Z (10 ^ 10)).
    rewrite <- Zle_Qle. exact Hz. }
  rewrite H. cbn [mul Math_round]. do 2 f_equal.
  unfold Qfloor, Qplus, Qmult, inject_Z. cbn [Qnum Qden].
  change (Z.pos (1 * 1 * 2)) with 2%Z. change (Z.pos (1 * 1)) with 1%Z.
  rewrite Z.mul_1_r, Z.add_comm, Z.div_add by discriminate. reflexivity.
Qed.

(** The two forms of the condition on a timestamp. *)
Lemma milliseconds_Z (z : Z) :
  strict_eq (of_Z z) (of_Z 0) = true \/ gt (of_Z z) (Fin 1e10%Q) = true
  <-> (z = 0 \/ 10 ^ 10 < z)%Z.
Proof.
  unfold of_Z. rewrite strict_eq_Fin, gt_Fin.
  change 1e10%Q with (inject_Z (10 ^ 10)).
  rewrite <- Zlt_Qlt, inject_Z_injective. reflexivity.
Qed.

Lemma renormalized_fixed (s : Sample) :
  (exists z, timestamp s = of_Z z) ->
  strict_eq (timestamp s) (of_Z 0) = true
  \/ gt (timestamp s) (Fin 1e10%Q) = true ->
  renormalized s = s.
Proof.
  intros [z Hz] Hms. rewrite Hz in Hms. apply milliseconds_Z in Hms.
  unfold renormalized. rewrite Hz, (normalizeTimestamp_number_kept z Hms).
  rewrite <- Hz. destruct s; reflexivity.
Qed.

Lemma collect_sample_values (Date_parse : string -> option Z)
  (l : list Sample) :
  Forall finite_sample l ->
  collect Date_parse (map sample_value l) = map renormalized l.
Proof.
  induction 1 as [|x l Hx Hl IH]; [reflexivity|].
  unfold collect in *. cbn [map flat_map].
  rewrite (normalizePoint_sample_value Date_parse x Hx), IH. reflexivity.
Qed.

Lemma map_fixed (A : Type) (f : A -> A) (l : list A) :
  (forall x, In x l -> f x = x) -> map f l = l.
Proof.
  induction l as [|x l IH]; intros H; [reflexivity|].
  cbn [map]. rewrite (H x (or_introl eq_refl)), IH; [reflexivity|].
  intros y Hy. apply H. right. exact Hy.
Qed.

Lemma normalizePoints_idempotent_if (Date_parse : string -> option Z)
  (raw : value) :
  (forall s, In s (normalizePoints Date_parse raw) ->
     strict_eq (timestamp s) (of_Z 0) = true
     \/ gt (timestamp s) (Fin 1e10%Q) = true) ->
  normalizePoints Date_parse (series_value (normalizePoints Date_parse raw))
  = normalizePoints Date_parse raw.
Proof.
  intros Hms. set (series := normalizePoints Date_parse raw) in *.
  pose proof (normalizePoints_finite Date_parse raw) as Hfin.
  pose proof (normalizePoints_strict Date_parse raw) as Hs.
  fold series in Hfin, Hs.
  unfold series_value.
  rewrite normalizePoints_array, (collect_sample_values _ _ Hfin), map_fixed.
  - rewrite sort_sorted_id; [apply dedup_strict_id, Hs | exact Hfin |].
    apply StronglySorted_weaken, Hs.
  - intros s Hin. apply renormalized_fixed.
    + apply (normalizePoints_integral Date_parse raw), Hin.
    + apply Hms, Hin.
Qed.

(** Conversely, a non-zero timestamp at or below 1e10 does not survive
    the second pass: it would have to be 1000 times a timestamp of the
    series that is smaller in magnitude, and so on without end. *)
Lemma normalizePoints_idempotent_only_if (Date_parse : string -> option Z)
  (raw : value) :
  normalizePoints Date_parse (series_value (normalizePoints Date_parse raw))
  = normalizePoints Date_parse raw ->
  forall s, In s (normalizePoints Date_parse raw) ->
    strict_eq (timestamp s) (of_Z 0) = true
    \/ gt (timestamp s) (Fin 1e10%Q) = true.
Proof.
  set (series := normalizePoints Date_parse raw). intros Hid.
  pose proof (normalizePoints_finite Date_parse raw) as Hfin.
  fold series in Hfin.
  assert (Hpre : forall s, In s series ->
            exists s', In s' series /\ s = renormalized s').
  { intros s Hs. rewrite <- Hid in Hs. unfold series_value in Hs.
    rewrite normalizePoints_array, (collect_sample_values _ _ Hfin) in Hs.
    apply dedup_In, sort_In, in_map_iff in Hs as [s' [E Hs']].
    exists s'. split; [exact Hs' | symmetry; exact E]. }
  assert (Hnone : forall k s z, In s series -> timestamp s = of_Z z ->
            Z.abs_nat z = k -> (z = 0 \/ 10 ^ 10 < z)%Z).
  { induction k as [k IH] using lt_wf_ind. intros s z Hs Hz Hk.
    destruct (Hpre s Hs) as [s' [Hs' E]].
    destruct (normalizePoints_integral Date_parse raw s' Hs') as [z' Hz'].
    assert (Ets : timestamp s = normalizeTimestamp_number (of_Z z'))
      by (rewrite E; cbn [renormalized timestamp]; rewrite Hz'; reflexivity).
    destruct (Z_le_gt_dec z' (10 ^ 10)) as [Hsmall|Hbig].
    - rewrite (normalizeTimestamp_number_scaled z' Hsmall), Hz in Ets.
      injection Ets as Ez. subst z.
      destruct (Z.eq_dec z' 0) as [->|Hnz]; [left; reflexivity|].
      exfalso.
      destruct (IH (Z.abs_nat z') ltac:(lia) s' z' Hs' Hz' eq_refl); lia.
    - rewrite (normalizeTimestamp_number_kept z' ltac:(right; lia)), Hz in Ets.
      injection Ets as Ez. subst z.
      right. lia. }
  intros s Hs.
  destruct (normalizePoints_integral Date_parse raw s Hs) as [z Hz].
  rewrite Hz. apply milliseconds_Z. exact (Hnone _ s z Hs Hz eq_refl).
Qed.

(** C5, as the code has it: normalising the series [normalizePoints]
    returned gives the same series again exactly when every timestamp
    in it is 0 or above 1e10.  A smaller timestamp is read as seconds by
    the second pass and scaled by 1000. *)
Theorem normalizePoints_idempotent (Date_parse : string -> option Z)
  (raw : value) :
  normalizePoints Date_parse (series_value (normalizePoints Date_parse raw))
  = normalizePoints Date_parse raw
  <-> forall s, In s (normalizePoints Date_parse raw) ->
        strict_eq (timestamp s) (of_Z 0) = true
        \/ gt (timestamp s) (Fin 1e10%Q) = true.
Proof.
  split.
  - apply normalizePoints_idempotent_only_if.
  - apply normalizePoints_idempotent_if.
Qed.

(** Two records with present-day timestamps in seconds: their series
    is in milliseconds, above 1e10, and normalises to itself. *)
Lemma normalizePoints_idempotent_witness :
  let raw :=
    VArr [VArr [VNum (Fin 1700000000%Q); VNum (Fin 1900%Q)];
          VArr [VNum (Fin 1700000060%Q); VNum (Fin 1901%Q)]] in
  normalizePoints Date_parse_none
    (series_value (normalizePoints Date_parse_none raw))
  = normalizePoints Date_parse_none raw.
Proof.
  intros raw. apply (proj2 (normalizePoints_idempotent Date_parse_none raw)).
  intros s Hs. vm_compute in Hs.
  destruct Hs as [<-|[<-|[]]]; right; vm_compute; reflexivity.
Defined.

(** C5 as stated fails: the pair [5, 1] normalises to a sample at 5000
    ms, and normalising that series again moves it to 5000000. *)
Lemma normalizePoints_idempotent_counterexample :
  let raw := VArr [VArr [VNum (Fin 5%Q); VNum (Fin 1%Q)]] in
  normalizePoints Date_parse_none raw
  = [{| timestamp := Fin 5000%Q; price_usd := Fin 1%Q |}]
  /\ normalizePoints Date_parse_none
       (series_value (normalizePoints Date_parse_none raw))
     = [{| timestamp := Fin 5000000%Q; price_usd := Fin 1%Q |}]
  /\ normalizePoints Date_parse_none
       (series_value (normalizePoints Date_parse_none raw))
     <> normalizePoints Date_parse_none raw.
Proof.
  repeat split; try (vm_compute; reflexivity).
  vm_compute. intros H. discriminate H.
Qed.

(** ** The handler *)

Lemma TIMEFRAME_CONFIG_limit (key : string) (tf : TimeframeSpec) :
  own_property TIMEFRAME_CONFIG key = Some tf -> 0 < limit tf.
Proof.
  unfold TIMEFRAME_CONFIG. cbn [own_property].
  repeat (destruct (String.eqb _ key);
          [intros H; injection H as <-; cbn; lia|]).
  discriminate.
Qed.

(** On a series of finite samples the wall clock plays no part. *)
Lemma applyTimeWindow_finite (now : Z) (series : list Sample) (window : num) :
  Forall finite_sample series ->
  applyTimeWindow now series window =
    if isFinite window
    then
      match last_of series with
      | Some latest => spec_window (timestamp latest) series window
      | None => []
      end
    else series.
Proof.
  intros Hfin. destruct series as [|first rest].
  - destruct (isFinite window); reflexivity.
  - unfold applyTimeWindow, last_of.
    destruct window; try reflexivity. cbn [isFinite negb strict_eq compare orb].
    assert (Hlast : isFinite (timestamp (last (first :: rest) first)) = true).
    { rewrite Forall_forall in Hfin. apply Hfin, last_In. discriminate. }
    rewrite Hlast. reflexivity.
Qed.

Lemma slice_last_tail (limit : nat) (series : list Sample) :
  0 < limit ->
  slice_last (Nat.min limit (length series)) series = spec_tail limit series.
Proof.
  intros Hlimit. unfold slice_last, spec_tail.
  destruct (Nat.eqb_spec (Nat.min limit (length series)) 0) as [E|_].
  - destruct series as [|x l]; [reflexivity | cbn [length] in E; lia].
  - f_equal. lia.
Qed.

(** ** The variant with a real-time feed *)

(** In the real-time variant the long-term timeframes are served from
    the whole normalised cache, downsampled to 500, with no window. *)
Lemma chart_data_long_term (Date_parse : string -> option Z) (now : Z)
  (data : value) (upstream : settled (list Sample)) (query : value) :
  In (requested_timeframe query) RealTimeVariant.LONG_TERM_TIMEFRAMES ->
  RealTimeVariant.chart_data Date_parse now (Parsed data) upstream query
  = {| status := 200;
       payload :=
         Series
           (downsample
              (normalizePoints Date_parse
                 (if isArray data then data else VArr []))
              500) |}.
Proof.
  intros Hin. unfold RealTimeVariant.chart_data.
  assert (E : existsb (String.eqb (requested_timeframe query))
                RealTimeVariant.LONG_TERM_TIMEFRAMES = true).
  { apply existsb_exists. exists (requested_timeframe query).
    split; [exact Hin | apply String.eqb_refl]. }
  rewrite E. reflexivity.
Qed.

(** ** The invariant of a sample *)

(** Every sample of a normalised series has a finite price and a finite
    timestamp, and the timestamp is a whole number of milliseconds. *)
Lemma normalizePoints_samples (Date_parse : string -> option Z)
  (points : value) :
  Forall
    (fun s => finite_sample s /\ exists z, timestamp s = of_Z z)
    (normalizePoints Date_parse points).
Proof.
  apply Forall_forall. intros s Hs. split.
  - pose proof (normalizePoints_finite Date_parse points) as H.
    rewrite Forall_forall in H. apply H, Hs.
  - apply (normalizePoints_integral Date_parse points), Hs.
Qed.

(** ** Worked examples of section 8 of the specification *)

(** [Number] on strings. *)
Example Number_of_string_examples :
  Number_of_string " 12.50 " = Fin (25 # 2)%Q
  /\ Number_of_string "1e3" = Fin 1000%Q
  /\ Number_of_string "-.5" = Fin (-1 # 2)%Q
  /\ Number_of_string "0x1F" = Fin 31%Q
  /\ Number_of_string "-Infinity" = NInf
  /\ Number_of_string "12px" = NaN
  /\ Number_of_string "2024-01-01" = NaN.
Proof. repeat split; vm_compute; reflexivity. Qed.

(** The call on a string that reads as a finite number is the call on
    that number. *)
Lemma normalizeTimestamp_string (Date_parse : string -> option Z) (s : string) :
  isFinite (Number_of_string s) = true ->
  normalizeTimestamp Date_parse (VStr s)
  = normalizeTimestamp Date_parse (VNum (Number_of_string s)).
Proof. intros H. cbn [normalizeTimestamp]. rewrite H. reflexivity. Qed.

(** Unit coercion: seconds are scaled, milliseconds are kept, whether
    the input is a number or a string. *)
Example unit_coercion :
  normalizeTimestamp Date_parse_none (VNum (Fin 1700000000%Q))
  = Fin 1700000000000%Q
  /\ normalizeTimestamp Date_parse_none (VNum (Fin 1700000000000%Q))
     = Fin 1700000000000%Q
  /\ normalizeTimestamp Date_parse_none (VStr " 1700000000.4 ")
     = Fin 1700000000400%Q.
Proof. repeat split; vm_compute; reflexivity. Qed.

(** An unknown timeframe is answered 400, whatever the cache holds. *)
Example bogus_timeframe (file : read) :
  chart_data Date_parse_none 0 file (VStr "bogus")
  = {| status := 400; payload := Error "Unsupported timeframe" |}.
Proof. reflexivity. Qed.

(** A failed load is answered 502 for a known timeframe. *)
Example failed_load :
  chart_data Date_parse_none 0 (ReadFailed "ENOENT") VUndefined
  = {| status := 502; payload := Error "Failed to load chart data" |}.
Proof. reflexivity. Qed.

(** [timeframe=all] over a small cache: the normalised, deduplicated
    samples, unchanged. *)
Example all_timeframe_small_cache :
  let data :=
    VArr [VObj [("time"%string, VNum (Fin 1700000060%Q));
                ("price"%string, VStr "1901.5")];
          VArr [VNum (Fin 1700000000%Q); VNum (Fin 1900%Q)];
          VNull;
          VObj [("t"%string, VStr "1700000060");
                ("close"%string, VNum (Fin 1902%Q))]] in
  chart_data Date_parse_none 0 (Parsed data) (VStr "ALL")
  = {| status := 200;
       payload :=
         Series
           [{| timestamp := Fin 1700000000000%Q; price_usd := Fin 1900%Q |};
            {| timestamp := Fin 1700000060000%Q; price_usd := Fin 1902%Q |}] |}.
Proof. vm_compute. reflexivity. Qed.

(** A lower-case name inherited from [Object.prototype] is found by
    [TIMEFRAME_CONFIG[timeframe]] and served like [all]. *)
Example inherited_timeframe :
  let data := VArr [VArr [VNum (Fin 1700000000%Q); VNum (Fin 1900%Q)]] in
  chart_data Date_parse_none 0 (Parsed data) (VStr "constructor")
  = chart_data Date_parse_none 0 (Parsed data) (VStr "all").
Proof. vm_compute. reflexivity. Qed.

(** * Further properties of the code *)

(** ** The normalisers *)

Lemma last_only_In (l : list Sample) (x : Sample) :
  In x l -> exists y, last_only l = [y] /\ In y l.
Proof.
  intros H. destruct l as [|a l]; [destruct H|].
  exists (last (a :: l) a). split; [reflexivity|].
  apply last_In. discriminate.
Qed.

(** The series holds nothing but normalised input records, loses no
    timestamp of a record that normalises, and is no longer than the
    input. *)
Theorem normalizePoints_sound_complete (Date_parse : string -> option Z)
  (items : list value) :
  let series := normalizePoints Date_parse (VArr items) in
  (forall s, In s series ->
     exists r, In r items /\ normalizePoint Date_parse r = Some s)
  /\ (forall r s, In r items -> normalizePoint Date_parse r = Some s ->
        exists s', In s' series
          /\ strict_eq (timestamp s') (timestamp s) = true)
  /\ length series <= length items.
Proof.
  intros series. unfold series. rewrite normalizePoints_array.
  pose proof (collect_finite Date_parse items) as Hfin.
  split; [|split].
  - intros s Hs. apply dedup_In, sort_In in Hs.
    apply collect_In. exact Hs.
  - intros r s Hr Hs.
    assert (Hin : In s (at_timestamp (timestamp s) (collect Date_parse items))).
    { apply filter_In. split.
      - apply collect_In. exists r. split; assumption.
      - apply strict_eq_refl. apply (normalizePoint_finite _ _ _ Hs). }
    destruct (last_only_In _ _ Hin) as [y [Ey Hy]].
    pose proof (at_timestamp_dedup (timestamp s)
                  (sort by_timestamp (collect Date_parse items))
                  (sort_Forall _ _ _ _ Hfin) (sort_sorted _ Hfin)) as E.
    rewrite at_timestamp_sort in E by exact Hfin. rewrite Ey in E.
    assert (Hy' : In y (at_timestamp (timestamp s)
                          (dedup (sort by_timestamp (collect Date_parse items)))))
      by (rewrite E; left; reflexivity).
    apply filter_In in Hy' as [Hy1 Hy2]. exists y. split; assumption.
  - assert (Hd : forall l, length (dedup l) <= length l).
    { induction l as [|x l IH]; [cbn; lia|].
      destruct l as [|y l]; [cbn; lia|].
      rewrite dedup_cons_cons. destruct (strict_eq _ _); cbn [length] in *; lia. }
    eapply Nat.le_trans; [apply Hd|]. rewrite sort_length.
    unfold collect. clear. induction items as [|p items IH]; [cbn; lia|].
    cbn [flat_map]. rewrite length_app.
    destruct (normalizePoint Date_parse p); cbn [length] in *; lia.
Qed.

(** A record that does not normalise leaves no trace: the series is the
    one of the collection without it. *)
Theorem normalizePoints_skips_rejected (Date_parse : string -> option Z)
  (before after : list value) (bad : value) :
  normalizePoint Date_parse bad = None ->
  normalizePoints Date_parse (VArr (before ++ bad :: after))
  = normalizePoints Date_parse (VArr (before ++ after)).
Proof.
  intros H. rewrite !normalizePoints_array. do 2 f_equal.
  change (bad :: after) with ([bad] ++ after). rewrite !collect_app.
  unfold collect at 2. cbn [flat_map]. rewrite H. reflexivity.
Qed.

Lemma normalizePoints_skips_rejected_witness :
  normalizePoints Date_parse_none
    (VArr [VArr [VNum (Fin 1700000000%Q); VNum (Fin 1900%Q)];
           VStr "n/a";
           VArr [VNum (Fin 1700000060%Q); VNum (Fin 1901%Q)]])
  = normalizePoints Date_parse_none
      (VArr [VArr [VNum (Fin 1700000000%Q); VNum (Fin 1900%Q)];
             VArr [VNum (Fin 1700000060%Q); VNum (Fin 1901%Q)]]).
Proof.
  apply (normalizePoints_skips_rejected Date_parse_none
           [VArr [VNum (Fin 1700000000%Q); VNum (Fin 1900%Q)]]
           [VArr [VNum (Fin 1700000060%Q); VNum (Fin 1901%Q)]]
           (VStr "n/a")).
  reflexivity.
Defined.

(** A pair of strings is read like the pair of the numbers they spell,
    whenever the timestamp string spells a finite number. *)
Theorem normalizePoint_numeric_strings (Date_parse : string -> option Z)
  (ts price : string) :
  isFinite (Number_of_string ts) = true ->
  normalizePoint Date_parse (VArr [VStr ts; VStr price])
  = normalizePoint Date_parse
      (VArr [VNum (Number_of_string ts); VNum (Number_of_string price)]).
Proof.
  intros Hts. unfold normalizePoint, normalizePoint_body.
  cbn [truthy negb nth normalizeTimestamp normalizePrice]. rewrite Hts.
  reflexivity.
Qed.

Lemma normalizePoint_numeric_strings_witness :
  normalizePoint Date_parse_none (VArr [VStr "1700000000"; VStr "1900.5"])
  = normalizePoint Date_parse_none
      (VArr [VNum (Number_of_string "1700000000");
             VNum (Number_of_string "1900.5")]).
Proof.
  apply normalizePoint_numeric_strings. reflexivity.
Defined.

(** Between 1e7 and 1e10 seconds (late April 1970 to the year 2286) a
    timestamp in seconds and the same instant in milliseconds normalise
    to the same timestamp. *)
Theorem normalizeTimestamp_seconds_or_milliseconds
  (Date_parse : string -> option Z) (v : Q) :
  (1e7 < v)%Q -> (v <= 1e10)%Q ->
  normalizeTimestamp Date_parse (VNum (Fin v))
  = normalizeTimestamp Date_parse (VNum (mul (Fin v) (Fin 1000%Q))).
Proof.
  intros Hlo Hhi. cbn [normalizeTimestamp mul].
  rewrite !normalizeTimestamp_number_two_way.
  assert (H1 : gt (Fin v) (Fin 1e10%Q) = false) by (apply gt_Fin_false; exact Hhi).
  assert (H2 : gt (Fin (v * 1000)) (Fin 1e10%Q) = true).
  { apply gt_Fin. change 1e10%Q with (1e7 * 1000)%Q. lra. }
  rewrite H1, H2. reflexivity.
Qed.

Lemma normalizeTimestamp_seconds_or_milliseconds_witness :
  normalizeTimestamp Date_parse_none (VNum (Fin 1700000000%Q))
  = normalizeTimestamp Date_parse_none
      (VNum (mul (Fin 1700000000%Q) (Fin 1000%Q))).
Proof.
  apply normalizeTimestamp_seconds_or_milliseconds;
    [reflexivity | discriminate].
Defined.

(** ** The downsampler on a series *)

Lemma stride_indices_from (fuel i step n : nat) :
  Forall (fun k => i <= k) (stride_indices fuel i step n).
Proof.
  revert i. induction fuel as [|fuel IH]; intros i; cbn [stride_indices];
    [constructor|].
  destruct (i <? n); constructor; [lia|].
  eapply Forall_impl; [|apply IH]. cbn. intros k Hk. lia.
Qed.

Lemma stride_indices_increasing (fuel i step n : nat) :
  0 < step -> StronglySorted Nat.lt (stride_indices fuel i step n).
Proof.
  intros Hstep. revert i.
  induction fuel as [|fuel IH]; intros i; cbn [stride_indices]; [constructor|].
  destruct (i <? n); constructor; [apply IH|].
  eapply Forall_impl; [|apply stride_indices_from]. cbn. intros k Hk. lia.
Qed.

Lemma increasing_last (l : list nat) :
  StronglySorted Nat.lt l -> Forall (fun k => k <= last l 0) l.
Proof.
  induction 1 as [|x l Hs IH Hx]; constructor.
  - destruct l as [|y l]; [cbn; lia|].
    rewrite Forall_forall in Hx.
    assert (In (last (y :: l) 0) (y :: l)) by (apply last_In; discriminate).
    change (last (x :: y :: l) 0) with (last (y :: l) 0).
    specialize (Hx _ H). lia.
  - destruct l as [|y l]; [constructor|]. exact IH.
Qed.

Lemma nth_ts_lt (series : list Sample) (d : Sample) (i j : nat) :
  StronglySorted ts_lt series -> i < j -> j < length series ->
  ts_lt (nth i series d) (nth j series d).
Proof.
  intros Hs Hij Hj.
  apply (StronglySorted_pairs Sample ts_lt series i j _ _ Hs Hij);
    apply nth_error_nth'; lia.
Qed.

Lemma map_nth_strict (series : list Sample) (d : Sample) (indices : list nat) :
  StronglySorted ts_lt series ->
  StronglySorted Nat.lt indices ->
  Forall (fun k => k < length series) indices ->
  StronglySorted ts_lt (map (fun i => nth i series d) indices).
Proof.
  intros Hs Hi Hb. induction Hi as [|i l Hi IH Hil]; [constructor|].
  inversion Hb as [|? ? Hib Hlb]; subst.
  cbn [map]. constructor; [apply IH, Hlb|].
  apply Forall_forall. intros z Hz.
  apply in_map_iff in Hz as [j [<- Hj]].
  rewrite Forall_forall in Hil, Hlb.
  apply nth_ts_lt; [exact Hs | apply Hil, Hj | apply Hlb, Hj].
Qed.

Lemma StronglySorted_snoc (A : Type) (R : A -> A -> Prop) (l : list A) (x : A) :
  StronglySorted R l -> Forall (fun a => R a x) l ->
  StronglySorted R (l ++ [x]).
Proof.
  induction 1 as [|a l Hs IH Ha]; intros Hx; cbn [app].
  - constructor; constructor.
  - inversion Hx as [|? ? Hax Hlx]; subst.
    constructor; [apply IH, Hlx|].
    apply Forall_app. split; [exact Ha | constructor; [exact Hax | constructor]].
Qed.

(** The strided sample of a series, with the last point, is in
    ascending order. *)
Lemma strided_strict (first : Sample) (rest : list Sample) (limit : nat) :
  StronglySorted ts_lt (first :: rest) ->
  limit < length (first :: rest) ->
  StronglySorted ts_lt (strided (first :: rest) limit first).
Proof.
  intros Hs Hlong. unfold strided.
  set (points := first :: rest) in *. set (n := length points) in *.
  set (step := if limit =? 0 then n else ceil_div n limit).
  assert (Hstep : 0 < step).
  { unfold step. destruct (Nat.eqb_spec limit 0); [lia|].
    pose proof (ceil_div_covers n limit ltac:(lia)).
    destruct (ceil_div n limit); lia. }
  pose proof (stride_indices_increasing n 0 step n Hstep) as Hinc.
  pose proof (stride_indices_below n 0 step n) as Hbelow.
  pose proof (map_nth_strict points first _ Hs Hinc Hbelow) as Hmap.
  destruct (Nat.eqb_spec (last (stride_indices n 0 step n) 0) (n - 1))
    as [_|Hne]; [exact Hmap|].
  apply StronglySorted_snoc; [exact Hmap|].
  apply Forall_forall. intros z Hz. apply in_map_iff in Hz as [j [<- Hj]].
  pose proof (increasing_last _ Hinc) as Hmax.
  rewrite Forall_forall in Hmax, Hbelow.
  assert (In (last (stride_indices n 0 step n) 0) (stride_indices n 0 step n)).
  { apply last_In. intros E. rewrite E in Hj. destruct Hj. }
  pose proof (Hmax _ Hj). pose proof (Hbelow _ H).
  apply nth_ts_lt; [exact Hs | lia | fold n; lia].
Qed.

Lemma same_timestamp_same_sample (series : list Sample) (a b : Sample) :
  StronglySorted ts_lt series -> In a series -> In b series ->
  strict_eq (timestamp a) (timestamp b) = true -> a = b.
Proof.
  induction 1 as [|x l Hs IH Hx]; intros Ha Hb E; [destruct Ha|].
  rewrite Forall_forall in Hx.
  destruct Ha as [<-|Ha], Hb as [<-|Hb]; auto.
  - apply Hx, lt_not_strict_eq in Hb. congruence.
  - apply Hx, lt_not_strict_eq in Ha. rewrite strict_eq_sym in Ha. congruence.
Qed.

Lemma ForallOrdPairs_snoc (A : Type) (R : A -> A -> Prop) (l : list A) (x : A) :
  ForallOrdPairs R l -> Forall (fun a => R a x) l ->
  ForallOrdPairs R (l ++ [x]).
Proof.
  induction 1 as [|a l Ha Hl IH]; intros Hx; cbn [app].
  - constructor; constructor.
  - inversion Hx as [|? ? Hax Hlx]; subst.
    constructor; [|apply IH, Hlx].
    apply Forall_app. split; [exact Ha | constructor; [exact Hax | constructor]].
Qed.

(** [ensure] keeps the timestamps of the sampled points distinct, when
    they and the point come from one series. *)
Lemma ensure_distinct (series sampled : list Sample) (pt : Sample) :
  StronglySorted ts_lt series -> Forall finite_sample series ->
  In pt series -> (forall z, In z sampled -> In z series) ->
  ForallOrdPairs (fun a b => strict_eq (timestamp a) (timestamp b) = false)
    sampled ->
  ForallOrdPairs (fun a b => strict_eq (timestamp a) (timestamp b) = false)
    (ensure pt sampled).
Proof.
  intros Hs Hfin Hpt Hincl Hd.
  destruct (ensure_cases pt sampled) as [[-> _]|[-> Hnew]]; [exact Hd|].
  apply ForallOrdPairs_snoc; [exact Hd|].
  apply Forall_forall. intros z Hz.
  destruct (strict_eq (timestamp z) (timestamp pt)) eqn:E; [|reflexivity].
  pose proof (same_timestamp_same_sample series z pt Hs (Hincl z Hz) Hpt E).
  subst z. specialize (Hnew pt Hz). rewrite E in Hnew. cbn [andb] in Hnew.
  rewrite Forall_forall in Hfin.
  rewrite strict_eq_refl in Hnew by (apply (Hfin pt Hpt)). discriminate.
Qed.

Lemma insert_strict (x : Sample) (l : list Sample) :
  Forall finite_sample (x :: l) ->
  Forall (fun y => strict_eq (timestamp x) (timestamp y) = false) l ->
  StronglySorted ts_lt l -> StronglySorted ts_lt (insert by_timestamp x l).
Proof.
  intros Hfin Hx Hs. induction Hs as [|y l Hs IH Hy]; cbn [insert].
  - constructor; constructor.
  - inversion Hfin as [|? ? Hxf Hfl]; subst.
    inversion Hfl as [|? ? Hyf Hl]; subst.
    inversion Hx as [|? ? Hxy Hxl]; subst.
    rewrite (by_timestamp_gt x y (proj1 Hxf) (proj1 Hyf)).
    destruct (lt (timestamp y) (timestamp x)) eqn:E.
    + constructor.
      * apply IH; [constructor; assumption | exact Hxl].
      * eapply Permutation_Forall; [apply insert_perm|].
        constructor; [exact E | exact Hy].
    + assert (Hlt : ts_lt x y).
      { unfold ts_lt. destruct Hxf as [Hxt _], Hyf as [Hyt _].
        destruct (isFinite_Fin _ Hxt) as [qx Ex], (isFinite_Fin _ Hyt) as [qy Ey].
        rewrite Ex, Ey in *. apply lt_Fin_false in E. apply lt_Fin.
        assert (~ (qx == qy)%Q)
          by (intros H; apply strict_eq_Fin in H; congruence).
        lra. }
      constructor; [constructor; assumption|].
      constructor; [exact Hlt|].
      eapply Forall_impl; [|exact Hy]. intros z Hz. unfold ts_lt in *.
      destruct (timestamp x), (timestamp y), (timestamp z);
        try discriminate; try reflexivity.
      apply lt_Fin in Hlt, Hz. apply lt_Fin. lra.
Qed.

Lemma sort_strict (l : list Sample) :
  Forall finite_sample l ->
  ForallOrdPairs (fun a b => strict_eq (timestamp a) (timestamp b) = false) l ->
  StronglySorted ts_lt (sort by_timestamp l).
Proof.
  intros Hfin Hd. induction Hd as [|x l Hx Hl IH]; [constructor|].
  inversion Hfin as [|? ? Hxf Hlf]; subst.
  cbn [sort]. apply insert_strict.
  - constructor; [exact Hxf | apply sort_Forall, Hlf].
  - apply sort_Forall, Hx.
  - apply IH, Hlf.
Qed.

Lemma strict_distinct (l : list Sample) :
  StronglySorted ts_lt l ->
  ForallOrdPairs (fun a b => strict_eq (timestamp a) (timestamp b) = false) l.
Proof.
  induction 1 as [|x l Hs IH Hx]; constructor; [|exact IH].
  eapply Forall_impl; [|exact Hx]. intros z. apply lt_not_strict_eq.
Qed.

Lemma downsample_sub_series (series : list Sample) (limit : nat) :
  Forall finite_sample series ->
  StronglySorted ts_lt series ->
  StronglySorted ts_lt (downsample series limit)
  /\ Forall finite_sample (downsample series limit)
  /\ forall s, In s (downsample series limit) -> In s series.
Proof.
  intros Hfin Hs.
  destruct (Nat.le_gt_cases (length series) limit) as [Hshort|Hlong].
  { rewrite (downsample_short series limit Hshort). auto. }
  destruct series as [|first rest]; [cbn in Hlong; lia|].
  rewrite (downsample_long first rest limit Hlong).
  set (points := first :: rest) in *.
  assert (Hfin2 : Forall finite_sample (first :: points))
    by (inversion Hfin; constructor; assumption).
  assert (Hmin : In (min_point points first) points).
  { destruct (min_point_spec points first Hfin2) as [[<-|H] _];
      [left; reflexivity | exact H]. }
  assert (Hmax : In (max_point points first) points).
  { destruct (max_point_spec points first Hfin2) as [[<-|H] _];
      [left; reflexivity | exact H]. }
  assert (Hbase : forall z, In z (strided points limit first) -> In z points)
    by (intros z; apply strided_incl).
  assert (Hmid : forall z, In z (ensure (min_point points first)
                                   (strided points limit first)) ->
                           In z points).
  { intros z Hz. apply ensure_In in Hz as [->|Hz]; auto. }
  assert (Hall : forall z, In z (ensure (max_point points first)
                                   (ensure (min_point points first)
                                      (strided points limit first))) ->
                           In z points).
  { intros z Hz. apply ensure_In in Hz as [->|Hz]; auto. }
  assert (Hfin_all : Forall finite_sample
            (ensure (max_point points first)
               (ensure (min_point points first)
                  (strided points limit first)))).
  { apply Forall_forall. intros z Hz. rewrite Forall_forall in Hfin.
    apply Hfin, Hall, Hz. }
  split; [|split].
  - apply sort_strict; [exact Hfin_all|].
    apply (ensure_distinct points); trivial.
    apply (ensure_distinct points); trivial.
    apply strict_distinct, strided_strict; assumption.
  - apply sort_Forall, Hfin_all.
  - intros s Hin. apply sort_In in Hin. apply Hall, Hin.
Qed.

(** Downsampling a series gives a series: the output is strictly
    ascending by timestamp and holds samples of the input only, for any
    limit. *)
Theorem downsample_series (series : list Sample) (limit : nat) :
  Forall finite_sample series ->
  StronglySorted ts_lt series ->
  StronglySorted ts_lt (downsample series limit)
  /\ Forall finite_sample (downsample series limit)
  /\ forall s, In s (downsample series limit) -> In s series.
Proof. apply downsample_sub_series. Qed.

Lemma downsample_series_witness :
  let sample t p := {| timestamp := of_Z t; price_usd := of_Z p |} in
  let series :=
    [sample 1 5; sample 2 1; sample 3 9; sample 4 5; sample 5 5]%Z in
  StronglySorted ts_lt (downsample series 2)
  /\ Forall finite_sample (downsample series 2)
  /\ forall s, In s (downsample series 2) -> In s series.
Proof.
  intros sample series. apply downsample_series.
  - repeat constructor.
  - repeat constructor.
Defined.

(** ** The time-window filter on a series *)

Lemma filter_last (A : Type) (f : A -> bool) (l : list A) (d : A) :
  l <> [] -> f (last l d) = true -> last (filter f l) d = last l d.
Proof.
  induction l as [|x l IH]; [congruence|]. intros _ H.
  destruct l as [|y l].
  - cbn in *. rewrite H. reflexivity.
  - change (last (x :: y :: l) d) with (last (y :: l) d) in *.
    specialize (IH ltac:(discriminate) H).
    cbn [filter] in *. destruct (f x); [|exact IH].
    destruct (f y) eqn:Ey; [exact IH|].
    destruct (filter f l) eqn:El; [|exact IH].
    exfalso. assert (Hin : In (last (y :: l) d) (filter f (y :: l))).
    { apply filter_In. split; [apply last_In; discriminate | exact H]. }
    cbn [filter] in Hin. rewrite Ey, El in Hin. destruct Hin.
Qed.

Lemma last_default (A : Type) (l : list A) (d d' : A) :
  l <> [] -> last l d = last l d'.
Proof.
  induction l as [|x l IH]; [congruence|]. intros _.
  destruct l as [|y l]; [reflexivity|].
  change (last (y :: l) d = last (y :: l) d'). apply IH. discriminate.
Qed.

Lemma filter_twice (A : Type) (f : A -> bool) (l : list A) :
  filter f (filter f l) = filter f l.
Proof.
  induction l as [|x l IH]; [reflexivity|].
  cbn [filter]. destruct (f x) eqn:E; [|exact IH].
  cbn [filter]. rewrite E, IH. reflexivity.
Qed.

Lemma filter_all (A : Type) (f : A -> bool) (l : list A) :
  (forall z, In z l -> f z = true) -> filter f l = l.
Proof.
  induction l as [|x l IH]; intros H; [reflexivity|].
  cbn [filter]. rewrite (H x (or_introl eq_refl)), IH; [reflexivity|].
  intros z Hz. apply H. right. exact Hz.
Qed.

(** In an ascending list the samples at or after a cutoff are a tail. *)
Lemma filter_from_cutoff (cutoff : num) (l : list Sample) :
  StronglySorted ts_le l ->
  exists k, filter (fun s => ge (timestamp s) cutoff) l = skipn k l.
Proof.
  induction 1 as [|x l Hs [k IH] Hx]; [exists 0; reflexivity|].
  cbn [filter]. destruct (ge (timestamp x) cutoff) eqn:E.
  - exists 0. cbn [skipn]. f_equal. apply filter_all.
    rewrite Forall_forall in Hx. intros z Hz. unfold ge in *.
    eapply le_trans; [exact E | apply Hx, Hz].
  - exists (S k). exact IH.
Qed.

(** The window of the cache-backed server on a series, for a finite
    window that is not negative: the latest sample is always kept (so
    the result is not empty), filtering again changes nothing, a wider
    window keeps at least as much, and on an ascending series the
    result is a tail of it. *)
Theorem applyTimeWindow_on_series (now : Z) (first : Sample)
  (rest : list Sample) (w : Q) :
  Forall finite_sample (first :: rest) ->
  (0 <= w)%Q ->
  let series := first :: rest in
  let out := applyTimeWindow now series (Fin w) in
  In (last series first) out
  /\ applyTimeWindow now out (Fin w) = out
  /\ (forall w', (w <= w')%Q ->
        forall s, In s out -> In s (applyTimeWindow now series (Fin w')))
  /\ (StronglySorted ts_le series -> exists k, out = skipn k series).
Proof.
  intros Hfin Hw series out.
  assert (Hlast : isFinite (timestamp (last series first)) = true).
  { rewrite Forall_forall in Hfin. apply Hfin, last_In. discriminate. }
  destruct (isFinite_Fin _ Hlast) as [t Et].
  assert (Eout : forall w', out = filter
            (fun s => ge (timestamp s) (Fin (t - w))) series
            /\ applyTimeWindow now series (Fin w')
               = filter (fun s => ge (timestamp s) (Fin (t - w'))) series).
  { intros w'. unfold out, applyTimeWindow, series.
    cbn [isFinite negb strict_eq compare orb]. fold series.
    rewrite Et. cbn [isFinite sub]. split; reflexivity. }
  assert (Hkeep : ge (timestamp (last series first)) (Fin (t - w)) = true).
  { rewrite Et. apply le_Fin. lra. }
  destruct (Eout w) as [E _]. clearbody out. subst out.
  remember (filter (fun s => ge (timestamp s) (Fin (t - w))) series) as kept
    eqn:Ekept.
  assert (Hin : In (last series first) kept).
  { rewrite Ekept. apply filter_In.
    split; [apply last_In; discriminate | exact Hkeep]. }
  split; [exact Hin|]. split; [|split].
  - destruct kept as [|o kept']; [destruct Hin|].
    unfold applyTimeWindow. cbn [isFinite negb strict_eq compare orb].
    rewrite (last_default Sample (o :: kept') o first) by discriminate.
    rewrite Ekept, (filter_last _ _ series first ltac:(discriminate) Hkeep), Et.
    cbn [isFinite sub]. apply filter_twice.
  - intros w' Hw' s Hs. destruct (Eout w') as [_ ->].
    rewrite Ekept in Hs. apply filter_In in Hs as [Hs Hge].
    apply filter_In. split; [exact Hs|]. unfold ge in *.
    eapply le_trans; [|exact Hge]. apply le_Fin. lra.
  - intros Hs. rewrite Ekept. apply filter_from_cutoff, Hs.
Qed.

Lemma applyTimeWindow_on_series_witness :
  let sample t p := {| timestamp := of_Z t; price_usd := of_Z p |} in
  let series := [sample 1000 5; sample 5000 6; sample 9000 7]%Z in
  let out := applyTimeWindow 0 series (Fin 5000%Q) in
  In (sample 9000 7)%Z out
  /\ applyTimeWindow 0 out (Fin 5000%Q) = out
  /\ (forall w', (5000 <= w')%Q ->
        forall s, In s out -> In s (applyTimeWindow 0 series (Fin w')))
  /\ (StronglySorted ts_le series -> exists k, out = skipn k series).
Proof.
  intros sample series out.
  apply (applyTimeWindow_on_series 0 (sample 1000 5)%Z
           [sample 5000 6; sample 9000 7]%Z 5000%Q).
  - repeat constructor.
  - discriminate.
Defined.

(** ** The handler: how the timeframe is read *)

Lemma trimStart_white (s : string) :
  whitespace_only s = true -> trimStart s = EmptyString.
Proof.
  induction s as [|c s IH]; [reflexivity|]. cbn.
  intros H. apply andb_prop in H as [Hc Hs]. rewrite Hc. auto.
Qed.

Lemma trimEnd_white (s : string) :
  whitespace_only s = true -> trimEnd s = EmptyString.
Proof.
  induction s as [|c s IH]; [reflexivity|]. cbn.
  intros H. apply andb_prop in H as [Hc Hs]. rewrite (IH Hs), Hc. reflexivity.
Qed.

Lemma trimEnd_app_white (s post : string) :
  whitespace_only post = true -> trimEnd (s ++ post) = trimEnd s.
Proof.
  intros H. induction s as [|c s IH]; cbn.
  - apply trimEnd_white, H.
  - rewrite IH. reflexivity.
Qed.

Lemma trim_app_white (pre s post : string) :
  whitespace_only pre = true -> whitespace_only post = true ->
  trim (pre ++ s ++ post) = trim s.
Proof.
  intros Hpre Hpost. unfold trim.
  induction pre as [|c pre IH]; cbn.
  - clear Hpre. induction s as [|c s IH]; cbn.
    + rewrite (trimStart_white post Hpost). reflexivity.
    + destruct (is_white c); [exact IH|].
      change (String c (s ++ post)) with (String c s ++ post)%string.
      apply trimEnd_app_white, Hpost.
  - cbn in Hpre. apply andb_prop in Hpre as [Hc Hpre]. rewrite Hc. auto.
Qed.

Lemma lower_white (c : ascii) : is_white (lower c) = is_white c.
Proof. destruct c as [[] [] [] [] [] [] [] []]; reflexivity. Qed.

Lemma lower_lower (c : ascii) : lower (lower c) = lower c.
Proof. destruct c as [[] [] [] [] [] [] [] []]; reflexivity. Qed.

Lemma toLowerCase_twice (s : string) :
  toLowerCase (toLowerCase s) = toLowerCase s.
Proof.
  induction s as [|c s IH]; [reflexivity|].
  cbn. rewrite lower_lower, IH. reflexivity.
Qed.

Lemma trimStart_lower (s : string) :
  trimStart (toLowerCase s) = toLowerCase (trimStart s).
Proof.
  induction s as [|c s IH]; [reflexivity|].
  cbn [toLowerCase trimStart]. rewrite lower_white.
  destruct (is_white c); [exact IH | reflexivity].
Qed.

Lemma trimEnd_lower (s : string) :
  trimEnd (toLowerCase s) = toLowerCase (trimEnd s).
Proof.
  induction s as [|c s IH]; [reflexivity|].
  cbn [toLowerCase trimEnd]. rewrite IH, lower_white.
  destruct (trimEnd s); [destruct (is_white c)|]; reflexivity.
Qed.

(** The handler reads the timeframe without regard to letter case or
    surrounding white space, and takes a missing, non-string or blank
    timeframe for [all]: such requests get the same response. *)
Theorem chart_data_timeframe_spelling (Date_parse : string -> option Z)
  (now : Z) (file : read) (s pre post : string) (other : value) :
  whitespace_only pre = true ->
  whitespace_only post = true ->
  (forall t, other <> VStr t) ->
  chart_data Date_parse now file (VStr (pre ++ s ++ post))
  = chart_data Date_parse now file (VStr s)
  /\ chart_data Date_parse now file (VStr (toLowerCase s))
     = chart_data Date_parse now file (VStr s)
  /\ chart_data Date_parse now file (VStr pre)
     = chart_data Date_parse now file (VStr "all")
  /\ chart_data Date_parse now file other
     = chart_data Date_parse now file (VStr "all").
Proof.
  intros Hpre Hpost Hother.
  assert (E1 : requested_timeframe (VStr (pre ++ s ++ post))
               = requested_timeframe (VStr s)).
  { unfold requested_timeframe. rewrite trim_app_white by assumption.
    reflexivity. }
  assert (E2 : requested_timeframe (VStr (toLowerCase s))
               = requested_timeframe (VStr s)).
  { unfold requested_timeframe, trim.
    rewrite trimStart_lower, trimEnd_lower, toLowerCase_twice. reflexivity. }
  assert (E3 : requested_timeframe (VStr pre) = requested_timeframe (VStr "all")).
  { unfold requested_timeframe. rewrite (trim_whitespace_only pre Hpre).
    reflexivity. }
  assert (E4 : requested_timeframe other = requested_timeframe (VStr "all")).
  { destruct other; try reflexivity. destruct (Hother s0 eq_refl). }
  unfold chart_data. rewrite E1, E2, E3, E4. auto.
Qed.

Lemma chart_data_timeframe_spelling_witness :
  let file :=
    Parsed (VArr [VArr [VNum (Fin 1700000000%Q); VNum (Fin 1900%Q)]]) in
  chart_data Date_parse_none 0 file (VStr "  1Y ")
  = chart_data Date_parse_none 0 file (VStr "1Y")
  /\ chart_data Date_parse_none 0 file (VStr (toLowerCase "1Y"))
     = chart_data Date_parse_none 0 file (VStr "1Y")
  /\ chart_data Date_parse_none 0 file (VStr "  ")
     = chart_data Date_parse_none 0 file (VStr "all")
  /\ chart_data Date_parse_none 0 file (VArr [VStr "1y"])
     = chart_data Date_parse_none 0 file (VStr "all").
Proof.
  intros file.
  apply (chart_data_timeframe_spelling Date_parse_none 0 file
           "1Y" "  " " " (VArr [VStr "1y"]));
    [reflexivity | reflexivity | discriminate].
Defined.

(** ** The handler: what it answers *)

Lemma StronglySorted_filter (A : Type) (R : A -> A -> Prop) (f : A -> bool)
  (l : list A) :
  StronglySorted R l -> StronglySorted R (filter f l).
Proof.
  induction 1 as [|x l Hs IH Hx]; [constructor|].
  cbn [filter]. destruct (f x); [|exact IH].
  constructor; [exact IH|].
  rewrite Forall_forall in *. intros z Hz. apply filter_In in Hz. apply Hx, Hz.
Qed.

Lemma StronglySorted_skipn (A : Type) (R : A -> A -> Prop) (k : nat)
  (l : list A) :
  StronglySorted R l -> StronglySorted R (skipn k l).
Proof.
  intros Hs. revert k. induction Hs as [|x l Hs IH Hx]; intros k.
  - destruct k; constructor.
  - destruct k; [constructor; assumption | apply IH].
Qed.

Lemma skipn_In (A : Type) (k : nat) (l : list A) (z : A) :
  In z (skipn k l) -> In z l.
Proof.
  revert k. induction l as [|x l IH]; intros k; destruct k; cbn; auto.
  intros H. right. apply (IH k H).
Qed.

Lemma applyTimeWindow_sub (now : Z) (series : list Sample) (window : num) :
  (StronglySorted ts_lt series ->
   StronglySorted ts_lt (applyTimeWindow now series window))
  /\ forall s, In s (applyTimeWindow now series window) -> In s series.
Proof.
  unfold applyTimeWindow. destruct series as [|first rest]; [auto|].
  destruct (negb (isFinite window) || strict_eq window PInf)%bool; [auto|].
  split.
  - apply StronglySorted_filter.
  - intros s Hs. apply filter_In in Hs. apply Hs.
Qed.

Lemma slice_last_sub (k : nat) (series : list Sample) :
  (StronglySorted ts_lt series -> StronglySorted ts_lt (slice_last k series))
  /\ forall s, In s (slice_last k series) -> In s series.
Proof.
  unfold slice_last. destruct (k =? 0); [auto|]. split.
  - apply StronglySorted_skipn.
  - intros s. apply skipn_In.
Qed.

Lemma config_limit_range (key : string) (config : entry TimeframeSpec) :
  property TIMEFRAME_CONFIG key = Some config ->
  0 < config_limit config <= 500.
Proof.
  unfold property. destruct (own_property TIMEFRAME_CONFIG key) as [tf|] eqn:E.
  - intros H. injection H as <-. revert E.
    unfold TIMEFRAME_CONFIG. cbn [own_property].
    repeat (destruct (String.eqb _ key);
            [intros H; injection H as <-; cbn; lia|]).
    discriminate.
  - destruct (_ || _)%bool; [|discriminate].
    intros H. injection H as <-. cbn. lia.
Qed.

(** The handler answers in exactly one of three ways, decided by the
    timeframe and the cache file alone: 400 when the configuration has
    no member of the requested name, whatever the cache; 502 when it
    has one and the cache could not be read or parsed; and 200 when it
    has one and the cache parsed, with a series that is strictly
    ascending, has finite fields, holds at most 503 samples, and
    consists of samples of the normalised cache. *)
Theorem chart_data_answers (Date_parse : string -> option Z) (now : Z)
  (file : read) (query : value) :
  match property TIMEFRAME_CONFIG (requested_timeframe query), file with
  | None, _ =>
      chart_data Date_parse now file query
      = {| status := 400; payload := Error "Unsupported timeframe" |}
  | Some _, Parsed data =>
      exists points,
        chart_data Date_parse now file query
        = {| status := 200; payload := Series points |}
        /\ StronglySorted ts_lt points
        /\ Forall finite_sample points
        /\ length points <= 503
        /\ forall s, In s points ->
             In s (normalizePoints Date_parse
                     (if isArray data then data else VArr []))
  | Some _, _ =>
      chart_data Date_parse now file query
      = {| status := 502; payload := Error "Failed to load chart data" |}
  end.
Proof.
  unfold chart_data.
  destruct (property TIMEFRAME_CONFIG (requested_timeframe query))
    as [config|] eqn:Ekey; [|reflexivity].
  pose proof (config_limit_range _ _ Ekey) as Hlimit.
  unfold loadNormalizedLongTermData, loadLongTermData.
  destruct file as [m|m|data]; cbn [load_chain]; [reflexivity | reflexivity |].
  set (normalized := normalizePoints Date_parse _).
  pose proof (normalizePoints_finite Date_parse
                (if isArray data then data else VArr [])) as Hfin.
  pose proof (normalizePoints_strict Date_parse
                (if isArray data then data else VArr [])) as Hs.
  fold normalized in Hfin, Hs.
  set (windowed := if length (applyTimeWindow now normalized _) <? 2
                   then _ else _).
  assert (Hw : StronglySorted ts_lt windowed
               /\ forall s, In s windowed -> In s normalized).
  { unfold windowed. destruct (_ <? 2).
    - destruct (slice_last_sub
                  (Nat.min (config_limit config) (length normalized))
                  normalized) as [H1 H2]. auto.
    - destruct (applyTimeWindow_sub now normalized (config_windowMs config))
        as [H1 H2]. auto. }
  destruct Hw as [Hws Hwin].
  assert (Hwfin : Forall finite_sample windowed).
  { apply Forall_forall. intros s Hin. rewrite Forall_forall in Hfin.
    apply Hfin, Hwin, Hin. }
  destruct (downsample_sub_series windowed (config_limit config) Hwfin Hws)
    as [Hds [Hdf Hdin]].
  exists (downsample windowed (config_limit config)).
  split; [reflexivity|]. split; [exact Hds|]. split; [exact Hdf|]. split.
  - destruct (Nat.le_gt_cases (length windowed) (config_limit config)) as [H|H].
    + rewrite (downsample_short _ _ H). lia.
    + pose proof (downsample_length windowed (config_limit config)
                    ltac:(lia) H). lia.
  - intros s Hin. apply Hwin, Hdin, Hin.
Qed.

(** The two lower-case names every object inherits are not rejected:
    a request for [constructor] or [__proto__] is answered like a
    request for [all]. *)
Theorem chart_data_inherited_names (Date_parse : string -> option Z)
  (now : Z) (file : read) (query : value) :
  requested_timeframe query = "constructor"%string
  \/ requested_timeframe query = "__proto__"%string ->
  chart_data Date_parse now file query
  = chart_data Date_parse now file (VStr "all").
Proof.
  intros H. unfold chart_data.
  change (requested_timeframe (VStr "all")) with "all"%string.
  assert (E : property TIMEFRAME_CONFIG (requested_timeframe query)
              = Some Inherited) by (destruct H as [-> | ->]; reflexivity).
  rewrite E.
  change (property TIMEFRAME_CONFIG "all")
    with (Some (Own {| windowMs := PInf; limit := 500 |})).
  destruct (loadNormalizedLongTermData Date_parse file) as [normalized|m];
    [|reflexivity].
  cbn [config_limit config_windowMs limit windowMs Nat.ltb Nat.leb].
  assert (Ew : applyTimeWindow now normalized NaN
               = applyTimeWindow now normalized PInf)
    by (destruct normalized; reflexivity).
  rewrite Ew. reflexivity.
Qed.

Lemma chart_data_inherited_names_witness :
  let file :=
    Parsed (VArr [VArr [VNum (Fin 1700000000%Q); VNum (Fin 1900%Q)]]) in
  chart_data Date_parse_none 0 file (VStr " Constructor ")
  = chart_data Date_parse_none 0 file (VStr "all").
Proof.
  intros file. apply chart_data_inherited_names. left. reflexivity.
Defined.

(** ** The cache loader over any sequence of events *)

(** Once the cache is loaded it stays loaded: whatever happens next, no
    read is issued again and every call returns the same collection. *)
Theorem loadLongTermData_loaded_stays (data : value) (events : list event) :
  loadLongTermData_run (Loaded data) events
  = (Loaded data,
     flat_map
       (fun e =>
          match e with
          | Call c => [Return c (if isArray data then data else VArr [])]
          | Settle _ => []
          end)
       events).
Proof.
  induction events as [|e events IH]; [reflexivity|].
  cbn [loadLongTermData_run flat_map].
  destruct e as [c|r]; cbn [loadLongTermData_step resume]; rewrite IH;
    reflexivity.
Qed.

Lemma reads_app (a b : list effect) : reads (a ++ b) = reads a + reads b.
Proof. unfold reads. rewrite filter_app, length_app. reflexivity. Qed.

Lemma answers_app (a b : list effect) :
  answers (a ++ b) = answers a + answers b.
Proof. unfold answers. rewrite filter_app, length_app. reflexivity. Qed.

Lemma reads_resume (s : settled value) (awaiting : list nat) :
  reads (map (fun c => resume c s) awaiting) = 0.
Proof.
  induction awaiting as [|c awaiting IH]; [reflexivity|].
  destruct s; exact IH.
Qed.

Lemma answers_resume (s : settled value) (awaiting : list nat) :
  answers (map (fun c => resume c s) awaiting) = length awaiting.
Proof.
  induction awaiting as [|c awaiting IH]; [reflexivity|].
  destruct s; cbn in *; f_equal; exact IH.
Qed.

Lemma calls_cons (e : event) (events : list event) :
  calls (e :: events)
  = (match e with Call _ => 1 | Settle _ => 0 end) + calls events.
Proof. destruct e; reflexivity. Qed.

Lemma failures_cons (e : event) (events : list event) :
  failures (e :: events)
  = (match e with
     | Settle (ReadFailed _) | Settle (ParseFailed _) => 1
     | _ => 0
     end) + failures events.
Proof. destruct e as [c|[m|m|d]]; reflexivity. Qed.

Lemma loadLongTermData_run_counts (st : slot) (events : list event) :
  reads (snd (loadLongTermData_run st events))
  + match st with Empty => 0 | _ => 1 end
  <= 1 + failures events
  /\ answers (snd (loadLongTermData_run st events))
     + suspended (fst (loadLongTermData_run st events))
     = calls events + suspended st.
Proof.
  revert st. induction events as [|e events IH]; intros st.
  - destruct st; cbn; lia.
  - cbn [loadLongTermData_run].
    destruct (loadLongTermData_step st e) as [st1 out1] eqn:E1.
    specialize (IH st1).
    destruct (loadLongTermData_run st1 events) as [st2 out2].
    cbn [fst snd] in *.
    rewrite reads_app, answers_app, calls_cons, failures_cons.
    destruct IH as [IH1 IH2].
    set (r2 := reads out2) in *. set (a2 := answers out2) in *.
    set (f := failures events) in *. set (k := calls events) in *.
    clearbody r2 a2 f k.
    destruct st as [|awaiting|data], e as [c|r];
      cbv beta iota zeta delta [loadLongTermData_step] in E1;
      injection E1 as <- <-;
      rewrite ?reads_resume, ?answers_resume;
      cbn [suspended] in *; rewrite ?length_app in *;
      try (cbn in *; lia);
      destruct r; cbn in *; lia.
Qed.

(** The loader reads the file at most once more than reads have failed,
    so once while no read fails, however many callers enter and in
    whatever order; it reads only when a call asks; and no caller is
    lost or answered twice: the calls answered and the calls still
    suspended add up to the calls made. *)
Theorem loadLongTermData_single_flight (events : list event) :
  let '(st, effects) := loadLongTermData_run Empty events in
  reads effects <= 1 + failures events
  /\ (calls events = 0 -> reads effects = 0)
  /\ answers effects + suspended st = calls events.
Proof.
  pose proof (loadLongTermData_run_counts Empty events) as [H1 H2].
  assert (H3 : calls events = 0 ->
               reads (snd (loadLongTermData_run Empty events)) = 0).
  { clear. assert (G : forall st, st = Empty \/ (exists d, st = Loaded d) ->
                       calls events = 0 ->
                       reads (snd (loadLongTermData_run st events)) = 0).
    { induction events as [|e events IH]; intros st Hst H0; [reflexivity|].
      rewrite calls_cons in H0. destruct e as [c|r]; [discriminate|].
      cbn [loadLongTermData_run].
      assert (E : loadLongTermData_step st (Settle r) = (st, [])).
      { destruct Hst as [->|[d ->]]; reflexivity. }
      rewrite E. specialize (IH st Hst H0).
      destruct (loadLongTermData_run st events) as [st2 out2].
      exact IH. }
    apply G. left. reflexivity. }
  destruct (loadLongTermData_run Empty events) as [st effects].
  cbn [fst snd suspended] in *. repeat split; [lia | exact H3 | lia].
Qed.

(** ** The two memo slots together *)

Lemma fold_chain_resume (Date_parse : string -> option Z)
  (s : settled value) (awaiting : list nat) (out : list memo_effect) :
  fold_left (chain_step Date_parse) [resume 0 s] (NPending awaiting, out)
  = match s with
    | Fulfilled data =>
        let series :=
          normalizePoints Date_parse (if isArray data then data else VArr []) in
        (NLoaded series, out ++ map (fun c => Gives c series) awaiting)
    | Rejected message =>
        (NEmpty, out ++ map (fun c => Fails c message) awaiting)
    end.
Proof. destruct s; reflexivity. Qed.

Lemma memo_run_app (Date_parse : string -> option Z) (m : memo)
  (a b : list memo_event) :
  memo_run Date_parse m (a ++ b)
  = (fst (memo_run Date_parse (fst (memo_run Date_parse m a)) b),
     snd (memo_run Date_parse m a)
       ++ snd (memo_run Date_parse (fst (memo_run Date_parse m a)) b)).
Proof.
  revert m. induction a as [|e a IH]; intros m.
  - cbn. destruct (memo_run Date_parse m b). reflexivity.
  - cbn [app memo_run]. destruct (memo_step Date_parse m e) as [m1 out1].
    rewrite IH. destruct (memo_run Date_parse m1 a) as [m2 out2].
    cbn [fst snd]. rewrite app_assoc. reflexivity.
Qed.

Lemma memo_run_cons (Date_parse : string -> option Z) (m : memo)
  (e : memo_event) (rest : list memo_event) :
  memo_run Date_parse m (e :: rest)
  = (fst (memo_run Date_parse (fst (memo_step Date_parse m e)) rest),
     snd (memo_step Date_parse m e)
       ++ snd (memo_run Date_parse (fst (memo_step Date_parse m e)) rest)).
Proof.
  cbn [memo_run]. destruct (memo_step Date_parse m e) as [m1 out1].
  cbn [fst snd]. destruct (memo_run Date_parse m1 rest). reflexivity.
Qed.

Lemma memo_run_requests (Date_parse : string -> option Z)
  (awaiting : list nat) (inner : list nat) (callers : list nat) :
  memo_run Date_parse
    {| normalizedLongTermDataPromise := NPending awaiting;
       longTermDataPromise := Pending inner |}
    (map Request callers)
  = ({| normalizedLongTermDataPromise := NPending (awaiting ++ callers);
        longTermDataPromise := Pending inner |}, []).
Proof.
  revert awaiting. induction callers as [|c callers IH]; intros awaiting.
  - cbn. rewrite app_nil_r. reflexivity.
  - cbn [map memo_run memo_step normalizedLongTermDataPromise
         longTermDataPromise].
    rewrite IH, <- app_assoc. reflexivity.
Qed.

(** One attempt to load: the first request starts the one read, the
    requests that arrive while it is in flight wait for it, and when the
    read settles every one of them gets what
    [loadNormalizedLongTermData] comes to for that read, in the order
    they arrived.  A parsed file stays in both slots; a failure leaves
    both slots empty, as at start. *)
Theorem loadNormalizedLongTermData_one_attempt
  (Date_parse : string -> option Z) (c : nat) (callers : list nat) (r : read) :
  memo_run Date_parse memo_start
    (Request c :: map Request callers ++ [ReadSettles r])
  = (match r with
     | Parsed data =>
         {| normalizedLongTermDataPromise :=
              NLoaded
                (normalizePoints Date_parse
                   (if isArray data then data else VArr []));
            longTermDataPromise := Loaded data |}
     | _ => memo_start
     end,
     Reads
       :: map
            (fun caller =>
               match loadNormalizedLongTermData Date_parse r with
               | Fulfilled series => Gives caller series
               | Rejected message => Fails caller message
               end)
            (c :: callers)).
Proof.
  rewrite memo_run_cons.
  change (memo_step Date_parse memo_start (Request c))
    with ({| normalizedLongTermDataPromise := NPending [c];
             longTermDataPromise := Pending [0] |}, [Reads]).
  cbn [fst snd].
  rewrite memo_run_app, memo_run_requests. cbn [fst snd app].
  rewrite memo_run_cons.
  cbn [memo_run memo_step longTermDataPromise normalizedLongTermDataPromise
       loadLongTermData_step map].
  rewrite fold_chain_resume.
  unfold loadNormalizedLongTermData, loadLongTermData.
  destruct r as [message|message|data];
    cbn [load_chain fst snd app map]; rewrite ?app_nil_r; reflexivity.
Qed.

(** Once the cache is loaded, every later request is answered from
    memory with the same series: nothing is read and nothing is
    normalised again, and a stray settlement changes nothing. *)
Theorem loadNormalizedLongTermData_loaded_stays
  (Date_parse : string -> option Z) (series : list Sample) (data : value)
  (events : list memo_event) :
  let m := {| normalizedLongTermDataPromise := NLoaded series;
              longTermDataPromise := Loaded data |} in
  memo_run Date_parse m events
  = (m,
     flat_map
       (fun e =>
          match e with
          | Request c => [Gives c series]
          | ReadSettles _ => []
          end)
       events).
Proof.
  intros m. induction events as [|e events IH]; [reflexivity|].
  cbn [memo_run flat_map].
  destruct e as [c|r]; cbn; fold m; rewrite IH; reflexivity.
Qed.

Lemma memo_step_consistent (Date_parse : string -> option Z) (m : memo)
  (e : memo_event) :
  consistent Date_parse m ->
  consistent Date_parse (fst (memo_step Date_parse m e)).
Proof.
  destruct m as [nslot raw]. unfold consistent. cbn [normalizedLongTermDataPromise longTermDataPromise].
  destruct nslot as [|awaiting|series], raw as [|inner|data];
    try contradiction; intros H.
  - destruct e as [c|r]; cbn; [split; [discriminate | reflexivity] | exact I].
  - destruct H as [Hne ->]. destruct e as [c|r].
    + cbn. split; [|reflexivity].
      destruct awaiting; discriminate.
    + cbn [memo_step longTermDataPromise normalizedLongTermDataPromise
           loadLongTermData_step map].
      rewrite fold_chain_resume.
      destruct r as [message|message|data]; cbn; auto.
  - destruct e as [c|r]; cbn; exact H.
Qed.

(** Whatever requests and settlements the server has seen since start,
    its two slots agree: both are empty, or both hold a pending promise
    (the raw one awaited by the normalising chain alone, the normalised
    one by at least one request), or both are loaded and the normalised
    slot holds the normalisation of what the raw slot holds. *)
Theorem memo_slots_agree (Date_parse : string -> option Z)
  (events : list memo_event) :
  consistent Date_parse (fst (memo_run Date_parse memo_start events)).
Proof.
  assert (G : forall m, consistent Date_parse m ->
                        consistent Date_parse (fst (memo_run Date_parse m events))).
  { induction events as [|e events IH]; intros m Hm; [exact Hm|].
    cbn [memo_run].
    pose proof (memo_step_consistent Date_parse m e Hm) as H1.
    destruct (memo_step Date_parse m e) as [m1 out1].
    specialize (IH m1 H1).
    destruct (memo_run Date_parse m1 events) as [m2 out2]. exact IH. }
  apply G. exact I.
Qed.

(** ** The real-time variant with its feed (lines 347-409) *)

Lemma REAL_TIME_TIMEFRAMES_own (key : string)
  (c : RealTimeVariant.RealTimeSpec) :
  own_property RealTimeVariant.REAL_TIME_TIMEFRAMES key = Some c ->
  0 < RealTimeVariant.rt_limit c <= 99
  /\ exists w, RealTimeVariant.rt_windowMs c = of_Z w.
Proof.
  unfold RealTimeVariant.REAL_TIME_TIMEFRAMES. cbn [own_property].
  repeat (destruct (String.eqb _ key);
          [intros H; injection H as <-; cbn; split; [lia | eexists; reflexivity]|]).
  discriminate.
Qed.

Lemma slice_last_length (A : Type) (k : nat) (l : list A) :
  0 < k -> length (slice_last k l) <= k.
Proof.
  intros Hk. unfold slice_last.
  destruct (Nat.eqb_spec k 0) as [E|_]; [lia|].
  rewrite length_skipn. lia.
Qed.

Lemma fetchRealTimeSeries_fulfilled (Date_parse : string -> option Z)
  (REAL_TIME_API_ENDPOINT : RealTimeVariant.endpoint) (timeframe : string)
  (upstream : RealTimeVariant.reply) (points : list Sample) :
  RealTimeVariant.fetchRealTimeSeries Date_parse REAL_TIME_API_ENDPOINT
    timeframe upstream = Fulfilled points ->
  REAL_TIME_API_ENDPOINT = RealTimeVariant.Configured
  /\ exists cfg code payload rawPoints,
       property RealTimeVariant.REAL_TIME_TIMEFRAMES timeframe = Some cfg
       /\ upstream = RealTimeVariant.Response code (Fulfilled payload)
       /\ RealTimeVariant.ok code = true
       /\ RealTimeVariant.rawPoints_of payload = Fulfilled rawPoints
       /\ points
          = slice_last (RealTimeVariant.feed_limit cfg)
              (normalizePoints Date_parse rawPoints).
Proof.
  unfold RealTimeVariant.fetchRealTimeSeries.
  destruct REAL_TIME_API_ENDPOINT; [discriminate| |];
    destruct (property RealTimeVariant.REAL_TIME_TIMEFRAMES timeframe)
      as [cfg|]; try discriminate.
  destruct upstream as [message|code [payload|message]]; try discriminate;
    destruct (RealTimeVariant.ok code) eqn:Eok; try discriminate.
  cbn [negb].
  destruct (RealTimeVariant.rawPoints_of payload) as [rawPoints|message] eqn:Eraw;
    [|discriminate].
  intros H. injection H as <-. split; [reflexivity|].
  exists cfg, code, payload, rawPoints. auto.
Qed.

(** What the feed gives for one of the three real-time timeframes, when
    it gives anything: the endpoint is configured, the upstream
    answered with a 2xx status and a body that parsed, and the result
    is the most recent samples of the normalised body, at most
    [cfg.limit] and never more than 99 of them, strictly ascending. *)
Theorem fetchRealTimeSeries_recent_tail (Date_parse : string -> option Z)
  (REAL_TIME_API_ENDPOINT : RealTimeVariant.endpoint) (timeframe : string)
  (upstream : RealTimeVariant.reply) (c : RealTimeVariant.RealTimeSpec)
  (points : list Sample) :
  own_property RealTimeVariant.REAL_TIME_TIMEFRAMES timeframe = Some c ->
  RealTimeVariant.fetchRealTimeSeries Date_parse REAL_TIME_API_ENDPOINT
    timeframe upstream = Fulfilled points ->
  REAL_TIME_API_ENDPOINT = RealTimeVariant.Configured
  /\ exists code payload rawPoints,
       upstream = RealTimeVariant.Response code (Fulfilled payload)
       /\ 200 <= code <= 299
       /\ RealTimeVariant.rawPoints_of payload = Fulfilled rawPoints
       /\ points
          = skipn
              (length (normalizePoints Date_parse rawPoints)
               - RealTimeVariant.rt_limit c)
              (normalizePoints Date_parse rawPoints)
       /\ length points <= RealTimeVariant.rt_limit c <= 99
       /\ StronglySorted ts_lt points
       /\ Forall finite_sample points.
Proof.
  intros Hown Hfetch.
  destruct (fetchRealTimeSeries_fulfilled _ _ _ _ _ Hfetch)
    as [Hep (cfg & code & payload & rawPoints & Hcfg & Hup & Hok & Hraw & Hpts)].
  split; [exact Hep|]. exists code, payload, rawPoints.
  unfold property in Hcfg. rewrite Hown in Hcfg. injection Hcfg as <-.
  destruct (REAL_TIME_TIMEFRAMES_own _ _ Hown) as [Hlimit _].
  cbn [RealTimeVariant.feed_limit] in Hpts.
  replace (Nat.min (RealTimeVariant.rt_limit c) 99)
    with (RealTimeVariant.rt_limit c) in Hpts by lia.
  split; [exact Hup|]. split.
  { unfold RealTimeVariant.ok in Hok. apply andb_prop in Hok.
    destruct Hok as [H1 H2]. apply Nat.leb_le in H1, H2. lia. }
  split; [exact Hraw|].
  pose proof (slice_last_length _ (RealTimeVariant.rt_limit c)
                (normalizePoints Date_parse rawPoints) ltac:(lia)) as Hlen.
  destruct (slice_last_sub (RealTimeVariant.rt_limit c)
              (normalizePoints Date_parse rawPoints)) as [Hs Hin].
  rewrite <- Hpts in Hlen, Hs, Hin.
  split.
  { rewrite Hpts. unfold slice_last.
    destruct (Nat.eqb_spec (RealTimeVariant.rt_limit c) 0); [lia | reflexivity]. }
  split; [lia|]. split.
  - apply Hs, normalizePoints_strict.
  - apply Forall_forall. intros s Hs'.
    pose proof (normalizePoints_finite Date_parse rawPoints) as Hfin.
    rewrite Forall_forall in Hfin. apply Hfin, Hin, Hs'.
Qed.

Lemma fetchRealTimeSeries_recent_tail_witness :
  let body := VObj [("data"%string,
                     VArr [VArr [VNum (Fin 1700000000%Q); VNum (Fin 1900%Q)]])] in
  let points := [ {| timestamp := Fin 1700000000000%Q; price_usd := Fin 1900%Q |} ] in
  RealTimeVariant.Configured = RealTimeVariant.Configured
  /\ exists code payload rawPoints,
       RealTimeVariant.Response 200 (Fulfilled body)
       = RealTimeVariant.Response code (Fulfilled payload)
       /\ 200 <= code <= 299
       /\ RealTimeVariant.rawPoints_of payload = Fulfilled rawPoints
       /\ points
          = skipn
              (length (normalizePoints Date_parse_none rawPoints) - 90)
              (normalizePoints Date_parse_none rawPoints)
       /\ length points <= 90 <= 99
       /\ StronglySorted ts_lt points
       /\ Forall finite_sample points.
Proof.
  intros body points.
  apply (fetchRealTimeSeries_recent_tail Date_parse_none
           RealTimeVariant.Configured "1h"
           (RealTimeVariant.Response 200 (Fulfilled body))
           {| RealTimeVariant.granularity := "1m";
              RealTimeVariant.rt_limit := 90;
              RealTimeVariant.rt_windowMs := of_Z (60 * 60 * 1000) |}
           points);
    vm_compute; reflexivity.
Defined.

Lemma fallback_limit_range (cfg : entry RealTimeVariant.RealTimeSpec) :
  0 < RealTimeVariant.fallback_limit cfg <= 99.
Proof. unfold RealTimeVariant.fallback_limit. lia. Qed.

Lemma wall_clock_window_sub (now : Z) (series : list Sample) (window : num) :
  (StronglySorted ts_lt series ->
   StronglySorted ts_lt (RealTimeVariant.applyTimeWindow now series window))
  /\ forall s,
       In s (RealTimeVariant.applyTimeWindow now series window) -> In s series.
Proof.
  unfold RealTimeVariant.applyTimeWindow.
  destruct (negb (isFinite window)); [auto|]. split.
  - apply StronglySorted_filter.
  - intros s Hs. apply filter_In in Hs. apply Hs.
Qed.

Lemma downsample_of_sub_series (normalized windowed : list Sample)
  (limit bound : nat) :
  Forall finite_sample normalized ->
  StronglySorted ts_lt windowed ->
  (forall s, In s windowed -> In s normalized) ->
  0 < limit <= bound ->
  StronglySorted ts_lt (downsample windowed limit)
  /\ Forall finite_sample (downsample windowed limit)
  /\ length (downsample windowed limit) <= bound + 3.
Proof.
  intros Hfin Hs Hin Hlimit.
  assert (Hwfin : Forall finite_sample windowed).
  { apply Forall_forall. intros s Hs'. rewrite Forall_forall in Hfin.
    apply Hfin, Hin, Hs'. }
  destruct (downsample_sub_series windowed limit Hwfin Hs) as [Hds [Hdf Hdin]].
  split; [exact Hds|]. split; [exact Hdf|].
  destruct (Nat.le_gt_cases (length windowed) limit) as [H|H].
  - rewrite (downsample_short _ _ H). lia.
  - pose proof (downsample_length windowed limit ltac:(lia) H). lia.
Qed.

(** The handler of the real-time variant answers in exactly one of
    three ways, decided by the timeframe, the feed and the cache file.
    A long-term timeframe is answered from the cache: 200 with at most
    503 samples when it parsed, 502 otherwise.  A timeframe that is
    neither long-term nor a member of [REAL_TIME_TIMEFRAMES] is answered
    400.  A real-time timeframe is answered 200 with the very series the
    feed gave (at most 99 samples for 1h, 6h and 24h); when the feed
    failed, from the cache: 200 with at most 102 samples when it parsed,
    502 otherwise.  Every series answered is strictly ascending with
    finite fields. *)
Theorem serve_answers (Date_parse : string -> option Z) (now : Z)
  (file : read) (REAL_TIME_API_ENDPOINT : RealTimeVariant.endpoint)
  (upstream : RealTimeVariant.reply) (query : value) :
  let timeframe := requested_timeframe query in
  let answer :=
    RealTimeVariant.serve Date_parse now file REAL_TIME_API_ENDPOINT upstream
      query in
  let failed :=
    {| status := 502; payload := Error "Failed to load chart data" |} in
  let series (bound : nat) :=
    exists points,
      answer = {| status := 200; payload := Series points |}
      /\ StronglySorted ts_lt points
      /\ Forall finite_sample points
      /\ length points <= bound in
  if existsb (String.eqb timeframe) RealTimeVariant.LONG_TERM_TIMEFRAMES
  then
    match file with
    | Parsed _ => series 503
    | _ => answer = failed
    end
  else
    match property RealTimeVariant.REAL_TIME_TIMEFRAMES timeframe with
    | None =>
        answer = {| status := 400; payload := Error "Unsupported timeframe" |}
    | Some cfg =>
        match
          RealTimeVariant.fetchRealTimeSeries Date_parse
            REAL_TIME_API_ENDPOINT timeframe upstream
        with
        | Fulfilled points =>
            answer = {| status := 200; payload := Series points |}
            /\ StronglySorted ts_lt points
            /\ Forall finite_sample points
            /\ (cfg <> Inherited -> length points <= 99)
        | Rejected _ =>
            match file with
            | Parsed _ => series 102
            | _ => answer = failed
            end
        end
    end.
Proof.
  intros timeframe answer failed series. subst answer failed series.
  unfold RealTimeVariant.serve, RealTimeVariant.chart_data.
  fold timeframe.
  assert (Hcache : forall cached windowed limit bound,
             (forall s, In s windowed ->
                        In s (normalizePoints Date_parse cached)) ->
             StronglySorted ts_lt windowed ->
             0 < limit <= bound ->
             StronglySorted ts_lt (downsample windowed limit)
             /\ Forall finite_sample (downsample windowed limit)
             /\ length (downsample windowed limit) <= bound + 3).
  { intros cached windowed limit bound Hin Hs Hl.
    apply (downsample_of_sub_series (normalizePoints Date_parse cached)
             windowed limit bound); auto.
    apply normalizePoints_finite. }
  destruct (existsb (String.eqb timeframe) RealTimeVariant.LONG_TERM_TIMEFRAMES)
    eqn:Elong.
  { unfold loadLongTermData.
    destruct file as [m|m|data]; cbn [load_chain];
      [reflexivity | reflexivity |].
    destruct (Hcache (if isArray data then data else VArr [])
                (normalizePoints Date_parse
                   (if isArray data then data else VArr []))
                500 500 ltac:(auto) (normalizePoints_strict _ _) ltac:(lia))
      as (H1 & H2 & H3).
    eexists. split; [reflexivity|]. auto. }
  destruct (property RealTimeVariant.REAL_TIME_TIMEFRAMES timeframe)
    as [cfg|] eqn:Ecfg; [|reflexivity].
  destruct (RealTimeVariant.fetchRealTimeSeries Date_parse
              REAL_TIME_API_ENDPOINT timeframe upstream)
    as [points|message] eqn:Efetch.
  - destruct (fetchRealTimeSeries_fulfilled _ _ _ _ _ Efetch)
      as [_ (cfg' & code & body & rawPoints & Hcfg & _ & _ & _ & Hpts)].
    rewrite Ecfg in Hcfg. injection Hcfg as <-.
    destruct (slice_last_sub (RealTimeVariant.feed_limit cfg)
                (normalizePoints Date_parse rawPoints)) as [Hs Hin].
    rewrite <- Hpts in Hs, Hin.
    split; [reflexivity|]. split; [apply Hs, normalizePoints_strict|]. split.
    + apply Forall_forall. intros s Hs'.
      pose proof (normalizePoints_finite Date_parse rawPoints) as Hfin.
      rewrite Forall_forall in Hfin. apply Hfin, Hin, Hs'.
    + intros Hown. destruct cfg as [c|]; [|congruence].
      unfold property in Ecfg.
      destruct (own_property RealTimeVariant.REAL_TIME_TIMEFRAMES timeframe)
        as [c'|] eqn:Eown;
        [|destruct (_ || _)%bool; discriminate].
      injection Ecfg as ->.
      destruct (REAL_TIME_TIMEFRAMES_own _ _ Eown) as [Hlimit _].
      pose proof (slice_last_length _
                    (RealTimeVariant.feed_limit (Own c))
                    (normalizePoints Date_parse rawPoints)
                    ltac:(cbn [RealTimeVariant.feed_limit]; lia)) as Hlen.
      rewrite <- Hpts in Hlen. cbn [RealTimeVariant.feed_limit] in Hlen. lia.
  - unfold loadLongTermData.
    destruct file as [m|m|data]; cbn [load_chain];
      [reflexivity | reflexivity |].
    pose proof (fallback_limit_range cfg) as Hl.
    destruct (wall_clock_window_sub now
                (normalizePoints Date_parse
                   (if isArray data then data else VArr []))
                (RealTimeVariant.fallback_windowMs cfg)) as [Hs Hin].
    destruct (Hcache (if isArray data then data else VArr [])
                _ (RealTimeVariant.fallback_limit cfg) 99 Hin
                (Hs (normalizePoints_strict _ _)) ltac:(lia))
      as (H1 & H2 & H3).
    eexists. split; [reflexivity|]. auto.
Qed.

Lemma lt_not_ge (a b : num) : lt a b = true -> ge a b = false.
Proof.
  unfold ge, le, lt.
  destruct a as [| | |x], b as [| | |y]; cbn; try discriminate; try reflexivity.
  rewrite <- (Qcompare_antisym x y).
  destruct (x ?= y)%Q; cbn; try discriminate; reflexivity.
Qed.

Lemma REAL_TIME_TIMEFRAMES_not_long_term (key : string)
  (c : RealTimeVariant.RealTimeSpec) :
  own_property RealTimeVariant.REAL_TIME_TIMEFRAMES key = Some c ->
  existsb (String.eqb key) RealTimeVariant.LONG_TERM_TIMEFRAMES = false.
Proof.
  unfold RealTimeVariant.REAL_TIME_TIMEFRAMES. cbn [own_property].
  repeat match goal with
         | |- context [String.eqb ?k key] =>
             destruct (String.eqb_spec k key) as [<-|_];
             [intros _; reflexivity|]
         end.
  discriminate.
Qed.

(** When the feed fails, for whatever reason, and every sample of the
    cache is older than the window measured back from the wall clock,
    a real-time timeframe is answered with 200 and an empty series. *)
Theorem serve_feed_down_stale_cache (Date_parse : string -> option Z)
  (now : Z) (data : value) (REAL_TIME_API_ENDPOINT : RealTimeVariant.endpoint)
  (upstream : RealTimeVariant.reply) (query : value)
  (c : RealTimeVariant.RealTimeSpec) (message : string) :
  own_property RealTimeVariant.REAL_TIME_TIMEFRAMES (requested_timeframe query)
  = Some c ->
  RealTimeVariant.fetchRealTimeSeries Date_parse REAL_TIME_API_ENDPOINT
    (requested_timeframe query) upstream = Rejected message ->
  forallb
    (fun s =>
       lt (timestamp s) (sub (of_Z now) (RealTimeVariant.rt_windowMs c)))
    (normalizePoints Date_parse (if isArray data then data else VArr []))
  = true ->
  RealTimeVariant.serve Date_parse now (Parsed data) REAL_TIME_API_ENDPOINT
    upstream query
  = {| status := 200; payload := Series [] |}.
Proof.
  intros Hown Hfetch Hold.
  unfold RealTimeVariant.serve, RealTimeVariant.chart_data.
  rewrite (REAL_TIME_TIMEFRAMES_not_long_term _ _ Hown), Hfetch.
  unfold property. rewrite Hown.
  cbn [loadLongTermData load_chain RealTimeVariant.fallback_windowMs].
  destruct (REAL_TIME_TIMEFRAMES_own _ _ Hown) as [_ [w Hw]].
  unfold RealTimeVariant.applyTimeWindow.
  replace (isFinite (RealTimeVariant.rt_windowMs c)) with true
    by (rewrite Hw; reflexivity).
  cbn [negb].
  rewrite filter_none.
  - rewrite downsample_short by (cbn; lia). reflexivity.
  - intros s Hs. rewrite forallb_forall in Hold. apply lt_not_ge, Hold, Hs.
Qed.

Lemma serve_feed_down_stale_cache_witness :
  RealTimeVariant.serve Date_parse_none 1800000000000
    (Parsed (VArr [VArr [VNum (Fin 1700000000%Q); VNum (Fin 1900%Q)]]))
    RealTimeVariant.NotConfigured (RealTimeVariant.Unreachable "timeout")
    (VStr "1h")
  = {| status := 200; payload := Series [] |}.
Proof.
  apply (serve_feed_down_stale_cache Date_parse_none 1800000000000
           (VArr [VArr [VNum (Fin 1700000000%Q); VNum (Fin 1900%Q)]])
           RealTimeVariant.NotConfigured (RealTimeVariant.Unreachable "timeout")
           (VStr "1h")
           {| RealTimeVariant.granularity := "1m";
              RealTimeVariant.rt_limit := 90;
              RealTimeVariant.rt_windowMs := of_Z (60 * 60 * 1000) |}
           "REAL_TIME_API_ENDPOINT is not configured");
    vm_compute; reflexivity.
Defined.

(** The two lower-case names every object inherits pass for real-time
    timeframes.  With the feed up, the whole normalised body of the
    upstream answer is passed on, however long; with the feed down, the
    whole normalised cache is served, downsampled to 99, with no
    window. *)
Theorem serve_inherited_names (Date_parse : string -> option Z) (now : Z)
  (file : read) (query : value)
  (code : nat) (payload : value) (rawPoints : value)
  (REAL_TIME_API_ENDPOINT : RealTimeVariant.endpoint)
  (upstream : RealTimeVariant.reply) (message : string) (data : value) :
  requested_timeframe query = "constructor"%string
  \/ requested_timeframe query = "__proto__"%string ->
  RealTimeVariant.ok code = true ->
  RealTimeVariant.rawPoints_of payload = Fulfilled rawPoints ->
  RealTimeVariant.fetchRealTimeSeries Date_parse REAL_TIME_API_ENDPOINT
    (requested_timeframe query) upstream = Rejected message ->
  RealTimeVariant.serve Date_parse now file RealTimeVariant.Configured
    (RealTimeVariant.Response code (Fulfilled payload)) query
  = {| status := 200;
       payload := Series (normalizePoints Date_parse rawPoints) |}
  /\ RealTimeVariant.serve Date_parse now (Parsed data)
       REAL_TIME_API_ENDPOINT upstream query
     = {| status := 200;
          payload :=
            Series
              (downsample
                 (normalizePoints Date_parse
                    (if isArray data then data else VArr []))
                 99) |}.
Proof.
  intros Hname Hok Hraw Hdown.
  assert (E : property RealTimeVariant.REAL_TIME_TIMEFRAMES
                (requested_timeframe query) = Some Inherited)
    by (destruct Hname as [-> | ->]; reflexivity).
  assert (L : existsb (String.eqb (requested_timeframe query))
                RealTimeVariant.LONG_TERM_TIMEFRAMES = false)
    by (destruct Hname as [-> | ->]; reflexivity).
  unfold RealTimeVariant.serve, RealTimeVariant.chart_data.
  rewrite L, E, Hdown. split; [|reflexivity].
  unfold RealTimeVariant.fetchRealTimeSeries. rewrite E, Hok, Hraw.
  reflexivity.
Qed.

(** A request for [" Constructor "].  With the feed up and a body of 120
    records under [data], all 120 samples are passed on; with the
    endpoint not configured and a cache of 150 records spanning 149
    minutes, the cache is downsampled with no window (the stride is 2,
    so 75 samples and the last). *)
Lemma serve_inherited_names_witness :
  let record i :=
    VArr [VNum (Fin (inject_Z (1700000000 + 60 * Z.of_nat i)));
          VNum (Fin (inject_Z (1900 + Z.of_nat i)))] in
  let body := VObj [("data"%string, VArr (map record (seq 0 120)))] in
  let cache := VArr (map record (seq 0 150)) in
  let up :=
    RealTimeVariant.serve Date_parse_none 1700009000000 (ReadFailed "ENOENT")
      RealTimeVariant.Configured
      (RealTimeVariant.Response 200 (Fulfilled body)) (VStr " Constructor ") in
  let down :=
    RealTimeVariant.serve Date_parse_none 1700009000000 (Parsed cache)
      RealTimeVariant.NotConfigured (RealTimeVariant.Unreachable "timeout")
      (VStr " Constructor ") in
  (up = {| status := 200;
           payload :=
             Series
               (normalizePoints Date_parse_none
                  (VArr (map record (seq 0 120)))) |}
   /\ down = {| status := 200;
                payload :=
                  Series
                    (downsample (normalizePoints Date_parse_none cache)
                       99) |})
  /\ length (normalizePoints Date_parse_none (VArr (map record (seq 0 120))))
     = 120
  /\ length (downsample (normalizePoints Date_parse_none cache) 99) = 76.
Proof.
  intros record body cache up down. split.
  - apply (serve_inherited_names Date_parse_none 1700009000000
             (ReadFailed "ENOENT") (VStr " Constructor ")
             200 body (VArr (map record (seq 0 120)))
             RealTimeVariant.NotConfigured
             (RealTimeVariant.Unreachable "timeout")
             "REAL_TIME_API_ENDPOINT is not configured" cache);
      [left; reflexivity | reflexivity | reflexivity | reflexivity].
  - split; vm_compute; reflexivity.
Defined.

(** ** The order of the records *)

Lemma sorted_perm_eq (l l' : list Sample) :
  StronglySorted ts_lt l -> StronglySorted ts_le l' -> Permutation l l' ->
  l = l'.
Proof.
  intros Hs. revert l'. induction Hs as [|x l Hs IH Hx]; intros l' Hs' Hp.
  - apply Permutation_nil in Hp. congruence.
  - destruct l' as [|y l'];
      [apply Permutation_sym, Permutation_nil in Hp; discriminate|].
    inversion Hs' as [|? ? Hs'' Hy]; subst.
    rewrite Forall_forall in Hx, Hy.
    assert (E : x = y).
    { assert (Hyin : In y (x :: l))
        by (eapply Permutation_in; [apply Permutation_sym, Hp | left; reflexivity]).
      assert (Hxin : In x (y :: l'))
        by (eapply Permutation_in; [exact Hp | left; reflexivity]).
      destruct Hyin as [E|Hyin]; [exact E|].
      destruct Hxin as [E|Hxin]; [symmetry; exact E|].
      pose proof (lt_not_ge _ _ (Hx y Hyin)) as H1.
      pose proof (Hy x Hxin) as H2. unfold ts_le in H2. unfold ge in H1.
      congruence. }
    subst y. f_equal. apply IH; [exact Hs''|].
    eapply Permutation_cons_inv, Hp.
Qed.

(** When no two records of the input come to the same timestamp, the
    order in which the records arrive does not matter: every
    rearrangement of the input normalises to the same series. *)
Theorem normalizePoints_order_irrelevant (Date_parse : string -> option Z)
  (items items' : list value) :
  Permutation items items' ->
  ForallOrdPairs (fun a b => strict_eq (timestamp a) (timestamp b) = false)
    (collect Date_parse items) ->
  normalizePoints Date_parse (VArr items)
  = normalizePoints Date_parse (VArr items').
Proof.
  intros Hp Hd. rewrite !normalizePoints_array. f_equal.
  apply sorted_perm_eq.
  - apply sort_strict; [apply collect_finite | exact Hd].
  - apply sort_sorted, collect_finite.
  - rewrite <- !sort_perm. unfold collect. apply Permutation_flat_map, Hp.
Qed.

Lemma normalizePoints_order_irrelevant_witness :
  normalizePoints Date_parse_none
    (VArr [VArr [VNum (Fin 1700000060%Q); VNum (Fin 1901%Q)];
           VArr [VNum (Fin 1700000000%Q); VNum (Fin 1900%Q)]])
  = normalizePoints Date_parse_none
      (VArr [VArr [VNum (Fin 1700000000%Q); VNum (Fin 1900%Q)];
             VArr [VNum (Fin 1700000060%Q); VNum (Fin 1901%Q)]]).
Proof.
  apply normalizePoints_order_irrelevant.
  - apply perm_swap.
  - repeat constructor.
Defined.

(** ** The downsampler against section 4.3 *)

Lemma strided_stride (points : list Sample) (limit : nat) (first z : Sample) :
  0 < limit -> limit < length points ->
  let stride := ceil_div (length points) limit in
  (In z (strided points limit first) ->
   (exists k, nth_error points (k * stride) = Some z)
   \/ z = nth (length points - 1) points first)
  /\ (forall k, nth_error points (k * stride) = Some z ->
        In z (strided points limit first)).
Proof.
  intros Hlimit Hlong stride.
  assert (Hstride : 0 < stride).
  { pose proof (ceil_div_covers (length points) limit Hlimit) as H.
    fold stride in H. destruct stride; [cbn in H; lia | lia]. }
  assert (Hpicked : forall i,
             In i (stride_indices (length points) 0 stride (length points))
             <-> i < length points /\ exists j, i = j * stride).
  { intros i.
    rewrite (stride_indices_complete (length points) 0 stride (length points) i
               Hstride ltac:(lia)).
    reflexivity. }
  unfold strided.
  destruct (Nat.eqb_spec limit 0) as [E|_]; [lia|]. fold stride.
  set (picked := stride_indices (length points) 0 stride (length points)) in *.
  assert (Hmap : forall y,
             In y (map (fun i => nth i points first) picked)
             <-> exists k, nth_error points (k * stride) = Some y).
  { intros y. rewrite in_map_iff. split.
    - intros [i [Ei Hi]]. apply Hpicked in Hi. destruct Hi as [Hi [j ->]].
      exists j. rewrite <- Ei. apply nth_error_nth'. exact Hi.
    - intros [k Hk]. exists (k * stride). split.
      + apply nth_error_nth. exact Hk.
      + apply Hpicked. split; [|exists k; reflexivity].
        apply nth_error_Some. congruence. }
  split.
  - intros Hz. destruct (last picked 0 =? length points - 1).
    + left. apply Hmap, Hz.
    + apply in_app_or in Hz. destruct Hz as [Hz|[<-|[]]].
      * left. apply Hmap, Hz.
      * right. reflexivity.
  - intros k Hk.
    assert (Hin : In z (map (fun i => nth i points first) picked))
      by (apply Hmap; exists k; exact Hk).
    destruct (last picked 0 =? length points - 1); [exact Hin|].
    apply in_or_app. left. exact Hin.
Qed.

Lemma min_point_lowest (first : Sample) (rest : list Sample) :
  Forall finite_sample (first :: rest) ->
  lowest_price (first :: rest) (min_point (first :: rest) first).
Proof.
  intros Hfin.
  assert (Hfin2 : Forall finite_sample (first :: first :: rest))
    by (inversion Hfin; constructor; assumption).
  destruct (min_point_spec (first :: rest) first Hfin2) as [Hin [_ Hmin]].
  split; [|exact Hmin].
  destruct Hin as [<-|H]; [left; reflexivity | exact H].
Qed.

Lemma max_point_highest (first : Sample) (rest : list Sample) :
  Forall finite_sample (first :: rest) ->
  highest_price (first :: rest) (max_point (first :: rest) first).
Proof.
  intros Hfin.
  assert (Hfin2 : Forall finite_sample (first :: first :: rest))
    by (inversion Hfin; constructor; assumption).
  destruct (max_point_spec (first :: rest) first Hfin2) as [Hin [_ Hmax]].
  split; [|exact Hmax].
  destruct Hin as [<-|H]; [left; reflexivity | exact H].
Qed.

Lemma strict_ascending (l : list Sample) : StronglySorted ts_lt l -> ascending l.
Proof.
  intros Hs i a b Ha Hb.
  exact (StronglySorted_neighbours Sample ts_lt l i a b Hs Ha Hb).
Qed.

(** On a strictly ascending series of finite samples and for a positive
    limit, [downsample] returns what section 4.3 describes. *)
Lemma downsample_spec_downsampled (series : list Sample) (limit : nat) :
  Forall finite_sample series ->
  StronglySorted ts_lt series ->
  0 < limit ->
  spec_downsampled series limit (downsample series limit).
Proof.
  intros Hfin Hs Hlimit. unfold spec_downsampled.
  destruct (Nat.leb_spec (length series) limit) as [Hshort|Hlong].
  { apply downsample_short, Hshort. }
  destruct series as [|first rest]; [cbn in Hlong; lia|].
  destruct (downsample_sub_series (first :: rest) limit Hfin Hs)
    as [Hds [_ Hsub]].
  pose proof (downsample_length (first :: rest) limit Hlimit Hlong) as Hlen.
  pose proof (min_point_lowest first rest Hfin) as Hmin.
  pose proof (max_point_highest first rest Hfin) as Hmax.
  rewrite (downsample_long first rest limit Hlong) in *.
  set (points := first :: rest) in *.
  exists (ceil_div (length points) limit).
  assert (Hto : forall z k,
            nth_error points (k * ceil_div (length points) limit) = Some z ->
            In z (strided points limit first)).
  { intros z. apply (strided_stride points limit first z); lia. }
  assert (Hfrom : forall z, In z (strided points limit first) ->
            (exists k,
                nth_error points (k * ceil_div (length points) limit) = Some z)
            \/ z = nth (length points - 1) points first).
  { intros z. apply (strided_stride points limit first z); lia. }
  set (base := strided points limit first) in *.
  set (minPt := min_point points first) in *.
  set (maxPt := max_point points first) in *.
  assert (Hup : forall z, In z base ->
            In z (sort by_timestamp (ensure maxPt (ensure minPt base))))
    by (intros z Hz; apply sort_In, ensure_incl, ensure_incl, Hz).
  assert (Hlast : last_of points = Some (last points first)) by reflexivity.
  split.
  { split.
    - apply ceil_div_least; [exact Hlimit | lia].
    - apply ceil_div_covers, Hlimit. }
  split; [intros k s Hk; apply Hup, (Hto s k Hk)|].
  split.
  { intros s E. rewrite Hlast in E. injection E as <-.
    apply Hup, strided_last. }
  split.
  { destruct (ensure_cases minPt base) as [[_ [item [Hin [_ Hp]]]]|[E _]].
    - exists item. split; [|apply Hup, Hin]. split.
      + apply (strided_incl points limit first), Hin.
      + intros p Hp'. eapply strict_eq_le; [exact Hp | apply Hmin, Hp'].
    - exists minPt. split; [exact Hmin|].
      apply sort_In, ensure_incl. rewrite E.
      apply in_or_app. right. left. reflexivity. }
  split.
  { assert (Hmid : forall z, In z (ensure minPt base) -> In z points).
    { intros z Hz. apply ensure_In in Hz as [->|Hz]; [apply Hmin|].
      apply (strided_incl points limit first), Hz. }
    destruct (ensure_cases maxPt (ensure minPt base))
      as [[_ [item [Hin [_ Hp]]]]|[E _]].
    - exists item. split; [|apply sort_In, ensure_incl, Hin]. split.
      + apply Hmid, Hin.
      + intros p Hp'. unfold ge. eapply le_strict_eq; [exact Hp|].
        apply Hmax, Hp'.
    - exists maxPt. split; [exact Hmax|].
      apply sort_In. rewrite E. apply in_or_app. right. left. reflexivity. }
  split.
  { intros s Hin. apply sort_In in Hin.
    apply ensure_In in Hin as [->|Hin]; [right; right; right; exact Hmax|].
    apply ensure_In in Hin as [->|Hin]; [right; right; left; exact Hmin|].
    destruct (Hfrom s Hin) as [Hk | ->]; [left; exact Hk|].
    right. left. rewrite Hlast. f_equal. symmetry. apply nth_last_index. }
  split; [apply strict_ascending, Hds | exact Hlen].
Qed.

(** ** The time-window filter of the two variants *)

(** C6: the filter of the cache-backed server (lines 154-161) does what
    section 4.2 says: with an unbounded window it returns the series as
    it is; otherwise it returns, in order, exactly the samples whose
    timestamp is at or after the anchor minus the window, the anchor
    being the timestamp of the last sample when there is one and it is
    finite, and the wall clock otherwise.  The filter of the real-time
    variant (lines 341-345) returns the series as it is for a window
    that is not finite, and otherwise always anchors at the wall
    clock. *)
Theorem applyTimeWindow_spec (now : Z) (series : list Sample) (window : num) :
  applyTimeWindow now series window
  = (if isFinite window
     then spec_window (spec_anchor now series) series window
     else series)
  /\ RealTimeVariant.applyTimeWindow now series window
     = (if isFinite window
        then spec_window (of_Z now) series window
        else series).
Proof.
  split.
  - unfold applyTimeWindow, spec_window, spec_anchor, last_of.
    destruct series as [|first rest].
    + destruct (isFinite window); reflexivity.
    + destruct window; reflexivity.
  - unfold RealTimeVariant.applyTimeWindow.
    destruct (isFinite window); reflexivity.
Qed.

(** Two samples at 1000 and 2000 ms, a window of 1500 ms and a clock at
    10001 ms: anchored at the last sample the window keeps both; the
    filter of lines 341-345 keeps none. *)
Lemma applyTimeWindow_real_time_counterexample :
  let series :=
    [{| timestamp := Fin 1000%Q; price_usd := Fin 1900%Q |};
     {| timestamp := Fin 2000%Q; price_usd := Fin 1901%Q |}] in
  RealTimeVariant.applyTimeWindow 10001 series (Fin 1500%Q)
  <> spec_window (spec_anchor 10001 series) series (Fin 1500%Q).
Proof. vm_compute. discriminate. Qed.

Lemma filter_within (A : Type) (f g : A -> bool) (l : list A) :
  (forall z, In z l -> f z = true -> g z = true) ->
  filter f (filter g l) = filter f l.
Proof.
  induction l as [|x l IH]; intros H; [reflexivity|].
  cbn [filter].
  assert (IH' : filter f (filter g l) = filter f l)
    by (apply IH; intros z Hz; apply H; right; exact Hz).
  destruct (g x) eqn:Eg.
  - cbn [filter]. rewrite IH'. reflexivity.
  - destruct (f x) eqn:Ef; [|exact IH'].
    rewrite (H x (or_introl eq_refl) Ef) in Eg. discriminate.
Qed.

Lemma sorted_below_last (l : list Sample) (d s : Sample) :
  Forall finite_sample l -> StronglySorted ts_le l -> In s l ->
  le (timestamp s) (timestamp (last l d)) = true.
Proof.
  intros Hfin Hs. revert s.
  induction Hs as [|x l Hs IH Hx]; intros s Hin; [destruct Hin|].
  inversion Hfin as [|? ? Hxf Hlf]; subst.
  destruct l as [|y l].
  - destruct Hin as [<-|[]]. cbn [last].
    destruct (isFinite_Fin _ (proj1 Hxf)) as [q ->]. apply le_Fin, Qle_refl.
  - change (last (x :: y :: l) d) with (last (y :: l) d).
    destruct Hin as [<-|Hin]; [|apply IH; assumption].
    rewrite Forall_forall in Hx. apply Hx, last_In. discriminate.
Qed.

(** The two filters on one cache whose last sample is not in the
    future, for a finite window: the wall-clock filter of the real-time
    variant keeps only samples the filter of the cache-backed server
    keeps, and is the wall-clock filter of those; the two agree when
    the last sample is at the current time; and on an ascending series
    the wall-clock filter keeps nothing once the last sample is older
    than the window. *)
Theorem applyTimeWindow_wall_clock (now : Z) (first : Sample)
  (rest : list Sample) (w : Q) :
  Forall finite_sample (first :: rest) ->
  le (timestamp (last (first :: rest) first)) (of_Z now) = true ->
  let series := first :: rest in
  let anchored := applyTimeWindow now series (Fin w) in
  let wall := RealTimeVariant.applyTimeWindow now series (Fin w) in
  (forall s, In s wall -> In s anchored)
  /\ RealTimeVariant.applyTimeWindow now anchored (Fin w) = wall
  /\ (strict_eq (timestamp (last series first)) (of_Z now) = true ->
      wall = anchored)
  /\ (StronglySorted ts_le series ->
      lt (timestamp (last series first)) (sub (of_Z now) (Fin w)) = true ->
      wall = []).
Proof.
  intros Hfin Hpast series anchored wall.
  assert (Hlast : isFinite (timestamp (last series first)) = true).
  { rewrite Forall_forall in Hfin. apply Hfin, last_In. discriminate. }
  destruct (isFinite_Fin _ Hlast) as [t Et].
  fold series in Hpast. rewrite Et in Hpast. apply le_Fin in Hpast.
  assert (Ea : anchored
               = filter (fun s => ge (timestamp s) (Fin (t - w))) series).
  { unfold anchored. rewrite (applyTimeWindow_finite now series (Fin w) Hfin).
    unfold series at 1, last_of. fold series. rewrite Et. reflexivity. }
  assert (Ew : forall l, RealTimeVariant.applyTimeWindow now l (Fin w)
               = filter (fun s => ge (timestamp s) (Fin (inject_Z now - w))) l)
    by reflexivity.
  unfold wall. rewrite !Ew, Ea. clear Ea Ew anchored wall.
  assert (Hin : forall z, In z series ->
            ge (timestamp z) (Fin (inject_Z now - w)) = true ->
            ge (timestamp z) (Fin (t - w)) = true).
  { intros z Hz. rewrite Forall_forall in Hfin.
    destruct (isFinite_Fin _ (proj1 (Hfin z Hz))) as [x ->].
    unfold ge. rewrite !le_Fin. intros H. lra. }
  split.
  { intros s Hs. apply filter_In in Hs. destruct Hs as [Hs Hw].
    apply filter_In. split; [exact Hs | apply Hin; assumption]. }
  split; [apply filter_within, Hin|].
  split.
  { intros Enow. rewrite Et in Enow. apply strict_eq_Fin in Enow.
    apply filter_ext_in. intros z Hz. rewrite Forall_forall in Hfin.
    destruct (isFinite_Fin _ (proj1 (Hfin z Hz))) as [x ->].
    unfold ge.
    destruct (le (Fin (inject_Z now - w)) (Fin x)) eqn:E1,
             (le (Fin (t - w)) (Fin x)) eqn:E2; try reflexivity.
    - apply le_Fin in E1.
      assert (H : le (Fin (t - w)) (Fin x) = true) by (apply le_Fin; lra).
      congruence.
    - apply le_Fin in E2.
      assert (H : le (Fin (inject_Z now - w)) (Fin x) = true)
        by (apply le_Fin; lra).
      congruence. }
  intros Hs Hold. rewrite Et in Hold. cbn [of_Z sub] in Hold.
  apply lt_Fin in Hold.
  apply filter_none. intros z Hz.
  pose proof (sorted_below_last series first z Hfin Hs Hz) as Hz'.
  rewrite Et in Hz'. rewrite Forall_forall in Hfin.
  destruct (isFinite_Fin _ (proj1 (Hfin z Hz))) as [x Ex].
  rewrite Ex in *. apply le_Fin in Hz'.
  apply lt_not_ge, lt_Fin. lra.
Qed.

(** A cache of two samples a minute apart, the clock 30 seconds after
    the last, a window of 75 seconds: the wall-clock filter keeps the
    last sample, the other filter keeps both. *)
Lemma applyTimeWindow_wall_clock_witness :
  let first := {| timestamp := Fin 1700000000000%Q; price_usd := Fin 1900%Q |} in
  let latest := {| timestamp := Fin 1700000060000%Q; price_usd := Fin 1901%Q |} in
  let series := [first; latest] in
  let anchored := applyTimeWindow 1700000090000 series (Fin 75000%Q) in
  let wall := RealTimeVariant.applyTimeWindow 1700000090000 series (Fin 75000%Q) in
  ((forall s, In s wall -> In s anchored)
   /\ RealTimeVariant.applyTimeWindow 1700000090000 anchored (Fin 75000%Q)
      = wall
   /\ (strict_eq (timestamp (last series first)) (of_Z 1700000090000) = true ->
       wall = anchored)
   /\ (StronglySorted ts_le series ->
       lt (timestamp (last series first))
         (sub (of_Z 1700000090000) (Fin 75000%Q)) = true ->
       wall = []))
  /\ wall = [latest]
  /\ anchored = [first; latest].
Proof.
  intros first latest series anchored wall. split.
  - apply (applyTimeWindow_wall_clock 1700000090000 first [latest] 75000%Q).
    + repeat constructor.
    + reflexivity.
  - split; vm_compute; reflexivity.
Defined.

(** ** The handler of the two variants on the cache-backed timeframes *)

Lemma spec_cache_windowed_series (normalized : list Sample) (tf : TimeframeSpec) :
  Forall finite_sample normalized ->
  StronglySorted ts_lt normalized ->
  Forall finite_sample (spec_cache_windowed normalized tf)
  /\ StronglySorted ts_lt (spec_cache_windowed normalized tf).
Proof.
  intros Hfin Hs.
  assert (Hsub : forall l, (forall s, In s l -> In s normalized) ->
                           Forall finite_sample l).
  { intros l Hl. apply Forall_forall. intros s Hin.
    rewrite Forall_forall in Hfin. apply Hfin, Hl, Hin. }
  unfold spec_cache_windowed.
  set (windowed := if isFinite (windowMs tf) then _ else normalized).
  assert (Hw : (forall s, In s windowed -> In s normalized)
               /\ StronglySorted ts_lt windowed).
  { unfold windowed. destruct (isFinite (windowMs tf)); [|auto].
    destruct (last_of normalized); [|split; [intros s []|constructor]].
    unfold spec_window. split.
    - intros z Hz. apply filter_In in Hz. apply Hz.
    - apply StronglySorted_filter, Hs. }
  destruct (length windowed <? 2).
  - unfold spec_tail. split.
    + apply Hsub. intros s. apply skipn_In.
    + apply StronglySorted_skipn, Hs.
  - split; [apply Hsub|]; apply Hw.
Qed.

(** C7: for a request whose timeframe is a key of the configuration of
    the cache-backed server, once the cache is read and parsed, the
    handler of lines 163-186 answers 200 with the series section 4.6
    describes: the cache normalised, windowed by the timeframe's
    [windowMs] back from the last sample of the dataset, replaced by the
    tail of the whole normalised series sized to the limit when fewer
    than 2 samples are left, and downsampled to the limit as section 4.3
    describes.  The handler of the real-time variant (lines 379-409)
    answers its long-term timeframes with the whole normalised cache
    downsampled to 500: it applies no window and no sparse-window
    recovery. *)
Theorem chart_data_cache_backed (Date_parse : string -> option Z) (now : Z)
  (data : value) (query : value) (tf : TimeframeSpec) :
  own_property TIMEFRAME_CONFIG (requested_timeframe query) = Some tf ->
  let normalized :=
    normalizePoints Date_parse (if isArray data then data else VArr []) in
  (exists points,
      chart_data Date_parse now (Parsed data) query
      = {| status := 200; payload := Series points |}
      /\ spec_downsampled (spec_cache_windowed normalized tf) (limit tf) points)
  /\ (In (requested_timeframe query) RealTimeVariant.LONG_TERM_TIMEFRAMES ->
      forall upstream,
      exists points,
        RealTimeVariant.chart_data Date_parse now (Parsed data) upstream query
        = {| status := 200; payload := Series points |}
        /\ spec_downsampled normalized 500 points).
Proof.
  intros Hkey normalized.
  pose proof (TIMEFRAME_CONFIG_limit _ _ Hkey) as Hlimit.
  assert (Hfin : Forall finite_sample normalized)
    by apply normalizePoints_finite.
  assert (Hs : StronglySorted ts_lt normalized)
    by apply normalizePoints_strict.
  split.
  - unfold chart_data, property. rewrite Hkey.
    unfold loadNormalizedLongTermData, loadLongTermData. cbn [load_chain].
    fold normalized.
    cbn [config_limit config_windowMs].
    destruct (Nat.ltb_spec 0 (limit tf)) as [_|]; [|lia].
    rewrite (applyTimeWindow_finite now normalized (windowMs tf) Hfin).
    rewrite (slice_last_tail (limit tf) normalized Hlimit).
    exists (downsample (spec_cache_windowed normalized tf) (limit tf)).
    split; [reflexivity|].
    destruct (spec_cache_windowed_series normalized tf Hfin Hs) as [Hwf Hws].
    apply downsample_spec_downsampled; assumption.
  - intros Hlong upstream.
    rewrite (chart_data_long_term Date_parse now data upstream query Hlong).
    fold normalized. eexists. split; [reflexivity|].
    apply downsample_spec_downsampled; [assumption | assumption | lia].
Qed.

(** A request for [" 1Y "] over a cache of three records, the first of
    them more than a year older than the last: the window of section
    4.6 holds the last two, which the first handler returns; [1y] is a
    long-term timeframe of the second handler, which returns all
    three. *)
Lemma chart_data_cache_backed_witness :
  let data :=
    VArr [VArr [VNum (Fin 1600000000%Q); VNum (Fin 1800%Q)];
          VArr [VNum (Fin 1699990000%Q); VNum (Fin 1900%Q)];
          VArr [VNum (Fin 1700000000%Q); VNum (Fin 1950%Q)]] in
  let tf := {| windowMs := of_Z (365 * 24 * 60 * 60 * 1000); limit := 500 |} in
  let normalized := normalizePoints Date_parse_none data in
  ((exists points,
       chart_data Date_parse_none 0 (Parsed data) (VStr " 1Y ")
       = {| status := 200; payload := Series points |}
       /\ spec_downsampled (spec_cache_windowed normalized tf) (limit tf) points)
   /\ (In (requested_timeframe (VStr " 1Y "))
         RealTimeVariant.LONG_TERM_TIMEFRAMES ->
       forall upstream,
       exists points,
         RealTimeVariant.chart_data Date_parse_none 0 (Parsed data) upstream
           (VStr " 1Y ")
         = {| status := 200; payload := Series points |}
         /\ spec_downsampled normalized 500 points))
  /\ spec_cache_windowed normalized tf
     = [{| timestamp := Fin 1699990000000%Q; price_usd := Fin 1900%Q |};
        {| timestamp := Fin 1700000000000%Q; price_usd := Fin 1950%Q |}]
  /\ chart_data Date_parse_none 0 (Parsed data) (VStr " 1Y ")
     = {| status := 200;
          payload :=
            Series
              [{| timestamp := Fin 1699990000000%Q; price_usd := Fin 1900%Q |};
               {| timestamp := Fin 1700000000000%Q; price_usd := Fin 1950%Q |}]
       |}
  /\ In (requested_timeframe (VStr " 1Y "))
       RealTimeVariant.LONG_TERM_TIMEFRAMES
  /\ RealTimeVariant.chart_data Date_parse_none 0 (Parsed data)
       (Rejected "down") (VStr " 1Y ")
     = {| status := 200;
          payload :=
            Series
              [{| timestamp := Fin 1600000000000%Q; price_usd := Fin 1800%Q |};
               {| timestamp := Fin 1699990000000%Q; price_usd := Fin 1900%Q |};
               {| timestamp := Fin 1700000000000%Q; price_usd := Fin 1950%Q |}]
       |}.
Proof.
  intros data tf normalized. split.
  - exact (chart_data_cache_backed Date_parse_none 0 data (VStr " 1Y ") tf
             eq_refl).
  - split; [vm_compute; reflexivity|].
    split; [vm_compute; reflexivity|].
    split; [right; left; reflexivity | vm_compute; reflexivity].
Defined.

(** The same cache and the handler of lines 379-409: its answer to
    [1y] is not the series section 4.6 describes, which holds the last
    two samples; it holds all three. *)
Lemma chart_data_real_time_1y_counterexample :
  let data :=
    VArr [VArr [VNum (Fin 1600000000%Q); VNum (Fin 1800%Q)];
          VArr [VNum (Fin 1699990000%Q); VNum (Fin 1900%Q)];
          VArr [VNum (Fin 1700000000%Q); VNum (Fin 1950%Q)]] in
  let tf := {| windowMs := of_Z (365 * 24 * 60 * 60 * 1000); limit := 500 |} in
  let normalized := normalizePoints Date_parse_none data in
  ~ exists points,
      RealTimeVariant.chart_data Date_parse_none 0 (Parsed data)
        (Rejected "down") (VStr "1y")
      = {| status := 200; payload := Series points |}
      /\ spec_downsampled (spec_cache_windowed normalized tf) (limit tf) points.
Proof.
  intros data tf normalized [points [E H]].
  assert (E' : RealTimeVariant.chart_data Date_parse_none 0 (Parsed data)
                 (Rejected "down") (VStr "1y")
               = {| status := 200; payload := Series normalized |})
    by (vm_compute; reflexivity).
  rewrite E' in E. injection E as <-.
  assert (Hw : spec_cache_windowed normalized tf
               = [{| timestamp := Fin 1699990000000%Q; price_usd := Fin 1900%Q |};
                  {| timestamp := Fin 1700000000000%Q; price_usd := Fin 1950%Q |}])
    by (vm_compute; reflexivity).
  unfold spec_downsampled in H. rewrite Hw in H. cbn [length Nat.leb limit tf] in H.
  vm_compute in H. discriminate H.
Qed.



